(** * agent2agent-js: the HTTP client of the A2A protocol

    A shallow embedding of [HttpClient] (JSON-RPC over HTTP, with
    Server-Sent Events for the streaming methods) and of [RpcError],
    followed by the properties of the unary response decoder, of the
    streaming frame decoder and of the agent-card cache.

    Conventions.
    - A JavaScript string is a [string]; every [ascii] stands for one
      code unit, so the model covers the code units below 256.
    - A number is an integer ([Z]), standing for the double of that
      value: the protocol's numbers are error codes, HTTP statuses and
      timestamps.
    - [await] is sequential composition: every method is modelled as run
      to completion, a generator as consumed to its end.
    - Line numbers are those of the source file of [HttpClient]. *)

From Stdlib Require Import String Ascii List ZArith Bool Lia DecimalString.
Import ListNotations.
Set Warnings "-register-all".
Set Implicit Arguments.
Local Open Scope string_scope.
Local Open Scope Z_scope.

(** ** JavaScript values *)

(** The values that [JSON.parse] produces, and [undefined], which a
    property access produces.  [VObj] lists the own properties of an
    object; a key occurs once, as in an object built by [JSON.parse]. *)
Inductive JSValue : Type :=
| VUndefined
| VNull
| VBool (b : bool)
| VNum (n : Z)
| VStr (s : string)
| VArr (items : list JSValue)
| VObj (fields : list (string * JSValue)).

Definition LF : ascii := "010"%char.
Definition CR : ascii := "013"%char.

(** [if (v)], [!!v]: the falsy values are [undefined], [null], [false],
    [0] and the empty string. *)
Definition truthy (v : JSValue) : bool :=
  match v with
  | VUndefined | VNull => false
  | VBool b => b
  | VNum n => negb (n =? 0)
  | VStr s => negb (s =? "")%string
  | VArr _ | VObj _ => true
  end.

(** [typeof v === "object"]: objects, arrays and [null]. *)
Definition typeof_object (v : JSValue) : bool :=
  match v with
  | VNull | VArr _ | VObj _ => true
  | _ => false
  end.

Fixpoint lookup (key : string) (fields : list (string * JSValue)) : option JSValue :=
  match fields with
  | [] => None
  | (k, v) :: rest => if (k =? key)%string then Some v else lookup key rest
  end.

(** [v.key] on a value that is neither [null] nor [undefined], for the
    keys the client reads ([jsonrpc], [error], [result], [code],
    [message], [data], [capabilities], [streaming], [pushNotifications]):
    none of them is a built-in property of a string, a number, a boolean
    or an array, so only an object can hold one. *)
Definition get (v : JSValue) (key : string) : JSValue :=
  match v with
  | VObj fields =>
      match lookup key fields with
      | Some x => x
      | None => VUndefined
      end
  | _ => VUndefined
  end.

(** [key in v] for an object or an array [v], for the same keys. *)
Definition has (key : string) (v : JSValue) : bool :=
  match v with
  | VObj fields =>
      match lookup key fields with
      | Some _ => true
      | None => false
      end
  | _ => false
  end.

(** [a === b] against a string constant. *)
Definition strict_eq_string (v : JSValue) (s : string) : bool :=
  match v with
  | VStr t => (t =? s)%string
  | _ => false
  end.

Definition is_nullish (v : JSValue) : bool :=
  match v with
  | VUndefined | VNull => true
  | _ => false
  end.

Definition is_null (v : JSValue) : bool :=
  match v with
  | VNull => true
  | _ => false
  end.

Definition is_undefined (v : JSValue) : bool :=
  match v with
  | VUndefined => true
  | _ => false
  end.

(** [a ?? b] *)
Definition nullish_or (a b : JSValue) : JSValue :=
  if is_nullish a then b else a.

Definition Z_to_string (n : Z) : string :=
  NilEmpty.string_of_int (Z.to_int n).

Fixpoint join (sep : string) (parts : list string) : string :=
  match parts with
  | [] => ""
  | [p] => p
  | p :: rest => p ++ sep ++ join sep rest
  end.

(** The double nearest to a positive integer, ties to the even
    significand (53 bits). *)
Definition nearest_double (v : Z) : Z :=
  if v <? 2 ^ 53 then v
  else
    let shift := Z.log2 v - 52 in
    let q := Z.shiftr v shift in
    let r := v - Z.shiftl q shift in
    let half := 2 ^ (shift - 1) in
    if (half <? r) || ((r =? half) && Z.odd q)
    then Z.shiftl (q + 1) shift
    else Z.shiftl q shift.

(** The shortest decimal significand [s], of [k] digits or more, such
    that [s * 10 ^ (nd - k)] is read back as [x]; of two the one nearer
    to [x], of two equally near the even one.  [x] has [nd] digits. *)
Fixpoint shortest (fuel : nat) (x nd k : Z) : Z * Z :=
  match fuel with
  | O => (x, nd)
  | S fuel' =>
      let unit := 10 ^ (nd - k) in
      let lo := x / unit in
      let hi := lo + 1 in
      let lo_reads := nearest_double (lo * unit) =? x in
      let hi_reads := (hi <? 10 ^ k) && (nearest_double (hi * unit) =? x) in
      match lo_reads, hi_reads with
      | true, true =>
          let below := x - lo * unit in
          let above := hi * unit - x in
          if below <? above then (lo, k)
          else if above <? below then (hi, k)
          else if Z.even lo then (lo, k) else (hi, k)
      | true, false => (lo, k)
      | false, true => (hi, k)
      | false, false => shortest fuel' x nd (k + 1)
      end
  end.

Fixpoint zeros (n : nat) : string :=
  match n with
  | O => ""
  | S k => String "0" (zeros k)
  end.

(** [Number.prototype.toString] on a positive integer: the shortest
    significand [s] of [k] digits with [s * 10 ^ (n - k)] read back as
    [x], written in full up to 21 digits and with an exponent above. *)
Definition positive_toString (x : Z) : string :=
  let nd := Z.of_nat (String.length (Z_to_string x)) in
  let '(s, k, n) :=
    if nearest_double (10 ^ nd) =? x then (1, 1, nd + 1)
    else let '(s, k) := shortest (Z.to_nat nd) x nd 1 in (s, k, nd) in
  let digits := Z_to_string s in
  if n <=? 21 then digits ++ zeros (Z.to_nat (n - k))
  else
    match digits with
    | EmptyString => EmptyString
    | String d EmptyString => String d ("e+" ++ Z_to_string (n - 1))
    | String d rest => String d ("." ++ rest ++ "e+" ++ Z_to_string (n - 1))
    end.

(** [String(n)] for a number. *)
Definition Number_toString (n : Z) : string :=
  if n =? 0 then "0"
  else if n <? 0 then "-" ++ positive_toString (- n)
  else positive_toString n.

(** [parts.join(sep)] over conversions that may throw. *)
Fixpoint join_all (sep : string) (parts : list (option string)) : option string :=
  match parts with
  | [] => Some ""
  | [p] => p
  | p :: rest =>
      match p, join_all sep rest with
      | Some a, Some b => Some (a ++ sep ++ b)
      | _, _ => None
      end
  end.

(** [String(v)], the conversion behind the [Error] constructor; [None]
    where it throws a [TypeError].  An object is converted by its
    [toString]: an object of [JSON.parse] inherits the one that answers
    ["[object Object]"], unless it has a member of that name, which is
    no function; [valueOf] then answers the object itself and the
    conversion throws.  An array joins the conversions of its items. *)
Fixpoint ToString (v : JSValue) : option string :=
  match v with
  | VUndefined => Some "undefined"
  | VNull => Some "null"
  | VBool true => Some "true"
  | VBool false => Some "false"
  | VNum n => Some (Number_toString n)
  | VStr s => Some s
  | VArr items =>
      join_all "," (map (fun x => if is_nullish x then Some "" else ToString x) items)
  | VObj fields =>
      match lookup "toString" fields with
      | Some _ => None
      | None => Some "[object Object]"
      end
  end.

(** The message that [new Error(message)] stores: none given, the empty
    one; [None] where the conversion throws. *)
Definition Error_text (message : JSValue) : option string :=
  if is_undefined message then Some "" else ToString message.

(** ** Strings *)

(** [s.startsWith(p)] is [String.prefix p s]. *)

(** [s.substring(n)] *)
Fixpoint substring_from (n : nat) (s : string) : string :=
  match n, s with
  | O, _ => s
  | S _, EmptyString => EmptyString
  | S k, String _ rest => substring_from k rest
  end.

(** The white space and line terminators that [trim] removes, among the
    code units below 256: TAB, LF, VT, FF, CR, SPACE and NBSP. *)
Definition is_space (c : ascii) : bool :=
  match nat_of_ascii c with
  | 9%nat | 10%nat | 11%nat | 12%nat | 13%nat | 32%nat | 160%nat => true
  | _ => false
  end.

Fixpoint trimStart (s : string) : string :=
  match s with
  | EmptyString => EmptyString
  | String c rest => if is_space c then trimStart rest else s
  end.

Fixpoint trimEnd (s : string) : string :=
  match s with
  | EmptyString => EmptyString
  | String c rest =>
      match trimEnd rest with
      | EmptyString => if is_space c then EmptyString else String c EmptyString
      | kept => String c kept
      end
  end.

Definition trim (s : string) : string := trimEnd (trimStart s).

Definition nonempty (s : string) : bool := negb (s =? "")%string.

(** [s.replace(/\r/g, "")] *)
Fixpoint remove_cr (s : string) : string :=
  match s with
  | EmptyString => EmptyString
  | String c rest =>
      if Ascii.eqb c CR then remove_cr rest else String c (remove_cr rest)
  end.

(** Puts a code unit in front of the first piece of a split. *)
Definition cons_first (c : ascii) (pieces : list string) : list string :=
  match pieces with
  | [] => [String c EmptyString]
  | p :: rest => String c p :: rest
  end.

(** [s.split("\n\n")]: cuts at the occurrences of two line feeds, found
    from the left and not overlapping; the result is never empty. *)
Fixpoint split_blank (s : string) : list string :=
  match s with
  | EmptyString => [EmptyString]
  | String c rest =>
      match rest with
      | String d rest' =>
          if (Ascii.eqb c LF && Ascii.eqb d LF)%bool
          then EmptyString :: split_blank rest'
          else cons_first c (split_blank rest)
      | EmptyString => cons_first c (split_blank rest)
      end
  end.

(** [lines.pop() || ""] and the array that [pop] leaves behind. *)
Definition pop_or_empty (lines : list string) : string := last lines "".
Definition popped (lines : list string) : list string := removelast lines.

(** ** A reader for JSON texts

    [JSON.parse] belongs to the platform; the client's functions below
    take it as a parameter.  [json_parse] is an executable instance for
    running the client on concrete wire texts.  It reads the JSON texts
    whose numbers are integer literals and whose strings use the
    two-character escapes only; it rejects every other text, so on a
    text with a fraction, an exponent or a [\u] escape it is not
    [JSON.parse].  A repeated key keeps its first position and takes its
    last value, as [JSON.parse] has it. *)
Module Json.

Definition is_ws (c : ascii) : bool :=
  match nat_of_ascii c with
  | 9%nat | 10%nat | 13%nat | 32%nat => true
  | _ => false
  end.

Fixpoint skip_ws (s : string) : string :=
  match s with
  | EmptyString => EmptyString
  | String c rest => if is_ws c then skip_ws rest else s
  end.

Definition digit (c : ascii) : option Z :=
  let n := nat_of_ascii c in
  if ((48 <=? n) && (n <=? 57))%nat then Some (Z.of_nat (n - 48)) else None.

Definition unescape (c : ascii) : option ascii :=
  match nat_of_ascii c with
  | 34%nat => Some "034"%char
  | 92%nat => Some "092"%char
  | 47%nat => Some "047"%char
  | 98%nat => Some "008"%char
  | 102%nat => Some "012"%char
  | 110%nat => Some "010"%char
  | 114%nat => Some "013"%char
  | 116%nat => Some "009"%char
  | _ => None
  end.

(** The characters of a string literal after its opening quote, and
    the text that follows the closing quote. *)
Fixpoint read_chars (s : string) : option (string * string) :=
  match s with
  | EmptyString => None
  | String c rest =>
      match nat_of_ascii c with
      | 34%nat => Some (EmptyString, rest)
      | 92%nat =>
          match rest with
          | String e rest' =>
              match unescape e, read_chars rest' with
              | Some x, Some (str, tail) => Some (String x str, tail)
              | _, _ => None
              end
          | EmptyString => None
          end
      | n =>
          if (n <? 32)%nat then None
          else match read_chars rest with
               | Some (str, tail) => Some (String c str, tail)
               | None => None
               end
      end
  end.

Fixpoint read_digits (acc : Z) (s : string) : Z * string :=
  match s with
  | EmptyString => (acc, s)
  | String c rest =>
      match digit c with
      | Some d => read_digits (10 * acc + d) rest
      | None => (acc, s)
      end
  end.

(** An integer literal without its sign: no leading zero, and no
    fraction or exponent after it. *)
Definition read_nat (s : string) : option (Z * string) :=
  match s with
  | EmptyString => None
  | String c rest =>
      match digit c with
      | None => None
      | Some d =>
          let '(n, tail) := if d =? 0 then (0, rest) else read_digits d rest in
          match tail with
          | String x _ =>
              match digit x, nat_of_ascii x with
              | Some _, _ => None
              | None, (46%nat | 69%nat | 101%nat) => None
              | None, _ => Some (n, tail)
              end
          | EmptyString => Some (n, tail)
          end
      end
  end.

Fixpoint assign (key : string) (v : JSValue) (fields : list (string * JSValue))
  : list (string * JSValue) :=
  match fields with
  | [] => [(key, v)]
  | (k, old) :: rest =>
      if (k =? key)%string then (k, v) :: rest else (k, old) :: assign key v rest
  end.

Definition expect (word : string) (v : JSValue) (s : string)
  : option (JSValue * string) :=
  if prefix word s then Some (v, substring_from (String.length word) s) else None.

(** [read_value fuel s] reads one value at the head of [s]. *)
Fixpoint read_value (fuel : nat) (s : string) : option (JSValue * string) :=
  match fuel with
  | O => None
  | S fuel' =>
      let read_items :=
        fix read_items (n : nat) (acc : list JSValue) (s : string)
          : option (JSValue * string) :=
          match n with
          | O => None
          | S n' =>
              match read_value fuel' s with
              | None => None
              | Some (v, tail) =>
                  match skip_ws tail with
                  | String c rest =>
                      match nat_of_ascii c with
                      | 44%nat => read_items n' (acc ++ [v])%list rest
                      | 93%nat => Some (VArr (acc ++ [v])%list, rest)
                      | _ => None
                      end
                  | EmptyString => None
                  end
              end
          end in
      let read_fields :=
        fix read_fields (n : nat) (acc : list (string * JSValue)) (s : string)
          : option (JSValue * string) :=
          match n with
          | O => None
          | S n' =>
              match skip_ws s with
              | String q after_quote =>
                  match nat_of_ascii q, read_chars after_quote with
                  | 34%nat, Some (key, tail) =>
                      match skip_ws tail with
                      | String colon tail' =>
                          match nat_of_ascii colon, read_value fuel' tail' with
                          | 58%nat, Some (v, tail'') =>
                              match skip_ws tail'' with
                              | String c rest =>
                                  match nat_of_ascii c with
                                  | 44%nat => read_fields n' (assign key v acc) rest
                                  | 125%nat => Some (VObj (assign key v acc), rest)
                                  | _ => None
                                  end
                              | EmptyString => None
                              end
                          | _, _ => None
                          end
                      | EmptyString => None
                      end
                  | _, _ => None
                  end
              | EmptyString => None
              end
          end in
      match skip_ws s with
      | EmptyString => None
      | String c rest =>
          match nat_of_ascii c with
          | 123%nat =>
              match skip_ws rest with
              | String c' rest' =>
                  if (nat_of_ascii c' =? 125)%nat then Some (VObj [], rest')
                  else read_fields fuel' [] rest
              | EmptyString => None
              end
          | 91%nat =>
              match skip_ws rest with
              | String c' rest' =>
                  if (nat_of_ascii c' =? 93)%nat then Some (VArr [], rest')
                  else read_items fuel' [] rest
              | EmptyString => None
              end
          | 34%nat =>
              match read_chars rest with
              | Some (str, tail) => Some (VStr str, tail)
              | None => None
              end
          | 45%nat =>
              match read_nat rest with
              | Some (n, tail) => Some (VNum (- n), tail)
              | None => None
              end
          | 116%nat => expect "true" (VBool true) (String c rest)
          | 102%nat => expect "false" (VBool false) (String c rest)
          | 110%nat => expect "null" VNull (String c rest)
          | _ =>
              match read_nat (String c rest) with
              | Some (n, tail) => Some (VNum n, tail)
              | None => None
              end
          end
      end
  end.

Definition json_parse (text : string) : option JSValue :=
  match read_value (S (String.length text)) text with
  | Some (v, tail) =>
      match skip_ws tail with
      | EmptyString => Some v
      | _ => None
      end
  | None => None
  end.

(** Wire texts are written with ['] for the double quote and [~] for
    the line feed, which a string literal cannot hold as they are. *)
Fixpoint wire (s : string) : string :=
  match s with
  | EmptyString => EmptyString
  | String c rest =>
      match nat_of_ascii c with
      | 39%nat => String "034"%char (wire rest)
      | 126%nat => String LF (wire rest)
      | _ => String c (wire rest)
      end
  end.

End Json.


(** ** Errors, console output and events *)

(** What a [throw] carries.  [RpcError] is the class of the client
    ([code], [message], [data]); [Error] stands for every other instance
    of [Error] ([SyntaxError], [TypeError], the [Error]s the client
    builds), of which the client reads the message only; [NonError] is a
    thrown value that is no [Error], known by its [String(...)].  [data]
    holds a JSON value of the peer or the error a local fault wraps. *)
Inductive Thrown : Type :=
| RpcError (code : JSValue) (message : string) (data : ErrorData)
| Error (message : string)
| NonError (shown : string)
with ErrorData : Type :=
| Data (v : JSValue)
| Cause (e : Thrown).

(** [error instanceof RpcError] *)
Definition is_RpcError (e : Thrown) : bool :=
  match e with
  | RpcError _ _ _ => true
  | _ => false
  end.

(** [error instanceof Error ? error.message : String(error)] *)
Definition message_of (e : Thrown) : string :=
  match e with
  | RpcError _ m _ => m
  | Error m => m
  | NonError shown => shown
  end.

(** The reserved code of the faults the client raises itself. *)
Definition INTERNAL_ERROR : JSValue := VNum (-32603).

Inductive Level : Type := LevelLog | LevelWarn | LevelError.

Inductive ConsoleArg : Type :=
| Text (s : string)
| Err (e : Thrown)
| Val (v : JSValue).

(** What a run shows to the outside: the items a generator yields, the
    calls of [console] and the release of the stream reader. *)
Inductive Event : Type :=
| Yield (item : JSValue)
| Console (level : Level) (args : list ConsoleArg)
| ReleaseLock.

(** The items of a trace, in order. *)
Fixpoint yields (evs : list Event) : list JSValue :=
  match evs with
  | [] => []
  | Yield v :: rest => v :: yields rest
  | _ :: rest => yields rest
  end.

(** ** Requests and responses *)

Record Request : Type := mkRequest {
  url : string;
  http_method : string;
  headers : list (string * string);
  request_body : option string
}.

(** A response body as its reader delivers it (after
    [TextDecoderStream]): the text chunks in order, then the end of the
    stream, or a read that rejects. *)
Record Stream : Type := mkStream {
  chunks : list string;
  failure : option Thrown
}.

Record Response : Type := mkResponse {
  status : Z;
  statusText : string;
  body : option Stream
}.

(** [response.ok] *)
Definition ok (r : Response) : bool := (200 <=? status r) && (status r <=? 299).

(** [expectedMethod || "unknown"] and [`${expectedMethod}`] *)
Definition or_unknown (m : option string) : string :=
  match m with
  | Some s => if nonempty s then s else "unknown"
  | None => "unknown"
  end.

Definition shown (m : option string) : string :=
  match m with
  | Some s => s
  | None => "undefined"
  end.

(** [new HttpClient(baseUrl)] and its two fields. *)
Record HttpClient : Type := mkClient {
  baseUrl : string;
  cachedAgentCard : JSValue
}.

Fixpoint strip_final_slash (s : string) : string :=
  match s with
  | EmptyString => EmptyString
  | String c rest =>
      match rest with
      | EmptyString => if Ascii.eqb c "/"%char then EmptyString else s
      | _ => String c (strip_final_slash rest)
      end
  end.

Definition new_HttpClient (base : string) : HttpClient :=
  {| baseUrl := strip_final_slash base; cachedAgentCard := VNull |}.


(** ** The platform

    What the client takes from its surroundings.  [World] is the state of
    everything outside the client (the network, the clock, the random
    source); the functions of the engine and the [fetchImpl] that the
    constructor received act on it.  [JSON_parse] gives [None] where
    [JSON.parse] throws a [SyntaxError]; [JSON_stringify] gives [inl]
    where [JSON.stringify] throws on the value it is handed (the
    parameters of a request may hold what no [JSValue] shows, a [BigInt]
    or a cycle); the messages of the engine's own errors are the
    engine's ([TypeError_message] for a property read on [null] or
    [undefined], [ToPrimitive_message] for a value that has no
    conversion to a string); [crypto_randomUUID] is [None] where the
    engine has no [crypto.randomUUID]. *)
Class Platform (World : Type) : Type := mkPlatform {
  JSON_parse : string -> option JSValue;
  JSON_stringify : JSValue -> Thrown + string;
  SyntaxError_message : string -> string;
  TypeError_message : JSValue -> string -> string;
  ToPrimitive_message : JSValue -> string;
  crypto_randomUUID : option (World -> string * World);
  Date_now : World -> Z * World;
  fetchImpl : Request -> World -> (Thrown + Response) * World
}.

Section Client.

Context {World : Type} {platform : Platform World}.

(** The client instance, the world, and the requests handed to
    [fetchImpl] so far (oldest first). *)
Record State : Type := mkState {
  this : HttpClient;
  world : World;
  fetched : list Request
}.

(** A run: what it showed, how it ended ([inl]: it threw), and the state
    it left. *)
Record Run (A : Type) : Type := mkRun {
  events : list Event;
  outcome : Thrown + A;
  final : State
}.

Definition Prog (A : Type) : Type := State -> Run A.

Definition ret {A} (x : A) : Prog A :=
  fun st => {| events := []; outcome := inr x; final := st |}.

Definition throw {A} (e : Thrown) : Prog A :=
  fun st => {| events := []; outcome := inl e; final := st |}.

(** Runs [k st] after a run that showed [evs]. *)
Definition after {A} (evs : list Event) (r : Run A) : Run A :=
  {| events := evs ++ events r; outcome := outcome r; final := final r |}.

Definition bind {A B} (m : Prog A) (k : A -> Prog B) : Prog B :=
  fun st =>
    let r := m st in
    match outcome r with
    | inl e => {| events := events r; outcome := inl e; final := final r |}
    | inr x => after (events r) (k x (final r))
    end.

(** [try { m } catch (e) { handler e }] *)
Definition try_catch {A} (m : Prog A) (handler : Thrown -> Prog A) : Prog A :=
  fun st =>
    let r := m st in
    match outcome r with
    | inl e => after (events r) (handler e (final r))
    | inr _ => r
    end.

(** [try { m } finally { cleanup }], for a [cleanup] that ends normally
    or throws. *)
Definition try_finally {A} (m : Prog A) (cleanup : Prog unit) : Prog A :=
  fun st =>
    let r := m st in
    let c := cleanup (final r) in
    {| events := events r ++ events c;
       outcome := match outcome c with
                  | inl e => inl e
                  | inr _ => outcome r
                  end;
       final := final c |}.

(** Runs [m] and hands its end over as a value. *)
Definition attempt {A} (m : Prog A) : Prog (Thrown + A) :=
  fun st =>
    let r := m st in
    {| events := events r; outcome := inr (outcome r); final := final r |}.

Definition emit (ev : Event) : Prog unit :=
  fun st => {| events := [ev]; outcome := inr tt; final := st |}.

Definition yield (item : JSValue) : Prog unit := emit (Yield item).

Definition console (level : Level) (args : list ConsoleArg) : Prog unit :=
  emit (Console level args).

Definition read_this : Prog HttpClient :=
  fun st => {| events := []; outcome := inr (this st); final := st |}.

Definition write_cachedAgentCard (card : JSValue) : Prog unit :=
  fun st =>
    {| events := []; outcome := inr tt;
       final := {| this := {| baseUrl := baseUrl (this st); cachedAgentCard := card |};
                   world := world st; fetched := fetched st |} |}.

(** A call of a function of the engine that reads or advances the world. *)
Definition engine {A} (f : World -> A * World) : Prog A :=
  fun st =>
    let '(x, w) := f (world st) in
    {| events := []; outcome := inr x;
       final := {| this := this st; world := w; fetched := fetched st |} |}.

(** [await this.fetchImpl(url, init)]; the request is recorded. *)
Definition fetch (req : Request) : Prog Response :=
  fun st =>
    let '(r, w) := fetchImpl req (world st) in
    {| events := []; outcome := r;
       final := {| this := this st; world := w;
                   fetched := (fetched st ++ [req])%list |} |}.

End Client.

Arguments State World : clear implicits.
Arguments Run World A : clear implicits.
Arguments Prog World A : clear implicits.

Declare Scope prog_scope.
Delimit Scope prog_scope with prog.
Notation "x <- m ;; k" := (bind m (fun x => k))
  (at level 61, m at next level, right associativity) : prog_scope.
Notation "m ;; k" := (bind m (fun _ => k))
  (at level 61, right associativity) : prog_scope.
Local Open Scope prog_scope.

Section Methods.

Context {World : Type} {platform : Platform World}.

Fixpoint for_each {A} (f : A -> Prog World unit) (l : list A) : Prog World unit :=
  match l with
  | [] => ret tt
  | x :: rest => f x ;; for_each f rest
  end.

(** What [throw new RpcError(code, message, data)] throws: the new
    [RpcError], whose [super(message)] has stored the message as a
    string, or the [TypeError] of that conversion. *)
Definition new_RpcError (code message : JSValue) (data : ErrorData) : Thrown :=
  match Error_text message with
  | Some m => RpcError code m data
  | None => Error (ToPrimitive_message message)
  end.

(** [JSON.parse(text)] *)
Definition parse (text : string) : Prog World JSValue :=
  match JSON_parse text with
  | Some v => ret v
  | None => throw (Error (SyntaxError_message text))
  end.

(** [v.key]: a [TypeError] on [null] and [undefined]. *)
Definition prop (v : JSValue) (key : string) : Prog World JSValue :=
  if is_nullish v then throw (Error (TypeError_message v key)) else ret (get v key).

(** [v?.key] *)
Definition optional_get (v : JSValue) (key : string) : JSValue :=
  if is_nullish v then VUndefined else get v key.

(** [await response.text()]: the whole body, the empty text when there
    is no body; it rejects when a read of the body does. *)
Definition text (response : Response) : Prog World string :=
  match body response with
  | None => ret ""
  | Some stream =>
      match failure stream with
      | Some e => throw e
      | None => ret (String.concat "" (chunks stream))
      end
  end.

(** [await response.json()] *)
Definition json (response : Response) : Prog World JSValue :=
  t <- text response ;; parse t.

(** Lines 45-54. *)
Definition _generateRequestId : Prog World JSValue :=
  match crypto_randomUUID with
  | Some randomUUID => uuid <- engine randomUUID ;; ret (VStr uuid)
  | None => now <- engine Date_now ;; ret (VNum now)
  end.

(** [JSON.stringify(v)] *)
Definition serialise (v : JSValue) : Prog World string :=
  match JSON_stringify v with
  | inr content => ret content
  | inl e => throw e
  end.

(** Lines 56-91.  The request body is serialised inside the [try],
    while the arguments of [fetchImpl] are evaluated. *)
Definition _makeHttpRequest (method : string) (params : JSValue) (acceptHeader : string)
  : Prog World Response :=
  requestId <- _generateRequestId ;;
  let requestBody :=
    VObj [("jsonrpc", VStr "2.0"); ("id", requestId);
          ("method", VStr method); ("params", params)] in
  try_catch
    (self <- read_this ;;
     content <- serialise requestBody ;;
     response <- fetch {| url := baseUrl self;
                          http_method := "POST";
                          headers := [("Content-Type", "application/json");
                                      ("Accept", acceptHeader)];
                          request_body := Some content |} ;;
     ret response)
    (fun networkError =>
       console LevelError [Text "Network error during RPC call:"; Err networkError] ;;
       throw (new_RpcError INTERNAL_ERROR
                (VStr ("Network error: " ++ message_of networkError))
                (Cause networkError))).

(** [throw new RpcError(e.code, e.message, e.data)] for the [error]
    member [e] of an envelope. *)
Definition throw_peer_error {A} (e : JSValue) : Prog World A :=
  throw (new_RpcError (get e "code") (get e "message") (Data (get e "data"))).

(** Lines 145-164, the [catch] of [_handleJsonResponse]; [responseBody]
    is the value the variable holds when the handler runs. *)
Definition on_response_error {A} (expectedMethod : option string)
    (responseBody : option string) (error : Thrown) : Prog World A :=
  console LevelError
    [Text ("Error processing RPC response for method " ++ or_unknown expectedMethod ++ ":");
     Err error;
     Text (match responseBody with
           | Some b => if nonempty b then String LF "Response Body: " ++ b else ""
           | None => ""
           end)] ;;
  if is_RpcError error then throw error
  else throw (new_RpcError INTERNAL_ERROR
                (VStr ("Failed to process response: " ++ message_of error))
                (Cause error)).

(** Lines 93-165.  Both branches of the [try] begin by reading the body
    into [responseBody]; the variable is still [null] in the handler
    when that read rejects, and holds the text afterwards. *)
Definition _handleJsonResponse (response : Response) (expectedMethod : option string)
  : Prog World JSValue :=
  read <- attempt (text response) ;;
  match read with
  | inl error => on_response_error expectedMethod None error
  | inr responseBody =>
      try_catch
        (if negb (ok response) then
           try_catch
             (parsedError <- parse responseBody ;;
              errorData <- prop parsedError "error" ;;
              if truthy errorData then throw_peer_error errorData else ret tt)
             (fun _ => ret tt) ;;
           throw (Error ("HTTP error " ++ Z_to_string (status response) ++ ": "
                         ++ statusText response
                         ++ (if nonempty responseBody then " - " ++ responseBody else "")))
         else
           jsonResponse <- parse responseBody ;;
           if negb (typeof_object jsonResponse)
              || is_null jsonResponse
              || negb (strict_eq_string (get jsonResponse "jsonrpc") "2.0")
           then throw (new_RpcError INTERNAL_ERROR
                         (VStr "Invalid JSON-RPC response structure received from server.")
                         (Data VUndefined))
           else if truthy (get jsonResponse "error")
           then throw_peer_error (get jsonResponse "error")
           else ret (nullish_or (get jsonResponse "result") VNull))
        (on_response_error expectedMethod (Some responseBody))
  end.

(** Lines 211-256, the body of the loop over the complete frames. *)
Definition handle_message (expectedMethod : option string) (message : string)
  : Prog World unit :=
  if prefix "data: " message then
    let dataLine := trim (substring_from (String.length "data: ") message) in
    if nonempty dataLine then
      try_catch
        (parsedData <- parse dataLine ;;
         if negb (typeof_object parsedData)
            || is_null parsedData
            || negb (has "jsonrpc" parsedData
                     && strict_eq_string (get parsedData "jsonrpc") "2.0")
         then
           console LevelError
             [Text ("Invalid SSE data structure received for method "
                    ++ shown expectedMethod ++ ":");
              Text dataLine]
         else if truthy (get parsedData "error") then
           console LevelError
             [Text ("Error received in SSE stream for method "
                    ++ shown expectedMethod ++ ":");
              Val (get parsedData "error")] ;;
           throw_peer_error (get parsedData "error")
         else if negb (is_undefined (get parsedData "result")) then
           if negb (is_undefined (get parsedData "result"))
           then yield (get parsedData "result")
           else ret tt
         else
           console LevelWarn
             [Text ("SSE data for " ++ shown expectedMethod
                    ++ " has neither result nor error:");
              Val parsedData])
        (fun e =>
           console LevelError
             [Text ("Failed to parse SSE data line for method "
                    ++ shown expectedMethod ++ ":");
              Text dataLine;
              Err e])
    else ret tt
  else ret tt.

(** Lines 195-258, the [while (true)] loop, by the chunks still to be
    read and the value of [buffer]. *)
Fixpoint read_loop (expectedMethod : option string) (pending : list string)
    (ending : option Thrown) (buffer : string) : Prog World unit :=
  match pending with
  | [] =>
      match ending with
      | Some e => throw e
      | None =>
          if nonempty (trim buffer) then
            console LevelWarn
              [Text ("SSE stream ended with partial data in buffer for method "
                     ++ shown expectedMethod ++ ": " ++ buffer)]
          else ret tt
      end
  | value :: later =>
      let buffer1 := buffer ++ value in
      let lines := split_blank (remove_cr buffer1) in
      let buffer2 := pop_or_empty lines in
      for_each (handle_message expectedMethod) (popped lines) ;;
      read_loop expectedMethod later ending buffer2
  end.

(** Lines 167-269. *)
Definition _handleStreamingResponse (response : Response) (expectedMethod : option string)
  : Prog World unit :=
  match (if ok response then body response else None) with
  | None =>
      read <- attempt (text response) ;;
      let errorText := match read with
                       | inr t => Some t
                       | inl _ => None
                       end in
      console LevelError
        [Text ("HTTP error " ++ Z_to_string (status response)
               ++ " received for streaming method " ++ or_unknown expectedMethod ++ ".");
         Text (match errorText with
               | Some t => if nonempty t then "Response: " ++ t else ""
               | None => ""
               end)] ;;
      throw (Error ("HTTP error " ++ Z_to_string (status response) ++ ": "
                    ++ statusText response ++ " - Failed to establish stream."))
  | Some stream =>
      try_finally
        (try_catch
           (read_loop expectedMethod (chunks stream) (failure stream) "")
           (fun error =>
              console LevelError
                [Text ("Error reading SSE stream for method "
                       ++ shown expectedMethod ++ ":");
                 Err error] ;;
              throw error))
        (emit ReleaseLock ;;
         console LevelLog
           [Text ("SSE stream finished for method " ++ shown expectedMethod ++ ".")])
  end.

(** Lines 271-305. *)
Definition agentCard : Prog World JSValue :=
  self <- read_this ;;
  if truthy (cachedAgentCard self) then ret (cachedAgentCard self)
  else
    let cardUrl := baseUrl self ++ "/agent-card" in
    try_catch
      (response <- fetch {| url := cardUrl;
                            http_method := "GET";
                            headers := [("Accept", "application/json")];
                            request_body := None |} ;;
       if negb (ok response) then
         throw (Error ("HTTP error " ++ Z_to_string (status response)
                       ++ " fetching agent card from " ++ cardUrl ++ ": "
                       ++ statusText response))
       else
         card <- json response ;;
         write_cachedAgentCard card ;;
         self' <- read_this ;;
         ret (cachedAgentCard self'))
      (fun error =>
         console LevelError [Text "Failed to fetch or parse agent card:"; Err error] ;;
         throw (new_RpcError INTERNAL_ERROR
                  (VStr ("Could not retrieve agent card: " ++ message_of error))
                  (Cause error))).

(** Lines 433-453. *)
Definition supports (capability : string) : Prog World bool :=
  try_catch
    (card <- agentCard ;;
     if (capability =? "streaming")%string then
       capabilities <- prop card "capabilities" ;;
       ret (truthy (optional_get capabilities "streaming"))
     else if (capability =? "pushNotifications")%string then
       capabilities <- prop card "capabilities" ;;
       ret (truthy (optional_get capabilities "pushNotifications"))
     else ret false)
    (fun error =>
       console LevelError
         [Text ("Failed to determine support for capability '" ++ capability ++ "':");
          Err error] ;;
       ret false).

(** The shape shared by the five unary methods: request, decode,
    [result ?? null]. *)
Definition unary_call (method : string) (params : JSValue) : Prog World JSValue :=
  httpResponse <- _makeHttpRequest method params "application/json" ;;
  result <- _handleJsonResponse httpResponse (Some method) ;;
  ret (nullish_or result VNull).

Definition sendTask (params : JSValue) := unary_call "tasks/send" params.
Definition getTask (params : JSValue) := unary_call "tasks/get" params.
Definition cancelTask (params : JSValue) := unary_call "tasks/cancel" params.
Definition setTaskPushNotification (params : JSValue) :=
  unary_call "tasks/pushNotification/set" params.
Definition getTaskPushNotification (params : JSValue) :=
  unary_call "tasks/pushNotification/get" params.

(** Hands the events of a consumed generator to a [for await] body:
    an item goes to the body, everything else is shown as it is. *)
Fixpoint replay (evs : list Event) (loop_body : JSValue -> Prog World unit)
  : Prog World unit :=
  match evs with
  | [] => ret tt
  | Yield item :: rest => loop_body item ;; replay rest loop_body
  | ev :: rest => emit ev ;; replay rest loop_body
  end.

(** [for await (const item of iterable) { loop_body item }].  The
    iterables of this client leave the state as it is, so the loop may
    consume the iterable first and run its bodies afterwards; it ends
    as the iterable ends, unless a body throws first. *)
Definition for_await (iterable : Prog World unit)
    (loop_body : JSValue -> Prog World unit) : Prog World unit :=
  fun st =>
    let r := iterable st in
    let r' := replay (events r) loop_body (final r) in
    match outcome r' with
    | inl e => r'
    | inr _ => {| events := events r'; outcome := outcome r; final := final r' |}
    end.

(** Lines 322-343 and 407-428, the generator of the two streaming
    methods. *)
Definition streamGenerator (method : string) (params : JSValue) : Prog World unit :=
  httpResponse <- _makeHttpRequest method params "text/event-stream" ;;
  for_await (_handleStreamingResponse httpResponse (Some method))
    (fun item =>
       if negb (is_undefined item) && negb (is_null item) then yield item else ret tt).

Definition sendTaskSubscribe (params : JSValue) := streamGenerator "tasks/sendSubscribe" params.
Definition resubscribeTask (params : JSValue) := streamGenerator "tasks/resubscribe" params.

End Methods.

(** ** A scripted platform

    An executable platform for running the client on concrete inputs:
    [json_parse] reads the texts, the world is the list of the replies
    that [fetchImpl] will give, one per call and whatever the request;
    the engine has no [crypto.randomUUID] and its clock stands still.
    The messages of [SyntaxError] and [TypeError] are fixed texts in the
    style of V8. *)
Module Scripted.

Definition World : Type := list (Thrown + Response).

Definition escape (c : ascii) : string :=
  match nat_of_ascii c with
  | 8%nat => String "092" "b"
  | 9%nat => String "092" "t"
  | 10%nat => String "092" "n"
  | 12%nat => String "092" "f"
  | 13%nat => String "092" "r"
  | 34%nat => String "092" (String "034" "")
  | 92%nat => String "092" (String "092" "")
  | _ => String c ""
  end.

Fixpoint quote_chars (s : string) : string :=
  match s with
  | EmptyString => String "034" ""
  | String c rest => escape c ++ quote_chars rest
  end.

Definition quote (s : string) : string := String "034" (quote_chars s).

(** [JSON.stringify] on the values of [JSValue] (control characters
    without a two-character escape are left as they are): a member
    whose value is [undefined] is left out, an [undefined] item of an
    array is written [null]. *)
Fixpoint stringify (v : JSValue) : string :=
  match v with
  | VUndefined => "undefined"
  | VNull => "null"
  | VBool true => "true"
  | VBool false => "false"
  | VNum n => Number_toString n
  | VStr s => quote s
  | VArr items =>
      "[" ++ join "," (map (fun x => if is_undefined x then "null" else stringify x) items)
          ++ "]"
  | VObj fields =>
      "{" ++ join ","
               (flat_map (fun kv => if is_undefined (snd kv) then []
                                    else [quote (fst kv) ++ ":" ++ stringify (snd kv)])
                         fields)
          ++ "}"
  end.

Definition next_reply (req : Request) (w : World) : (Thrown + Response) * World :=
  match w with
  | [] => (inl (Error "fetch failed"), [])
  | reply :: rest => (reply, rest)
  end.

Definition platform : Platform World :=
  {| JSON_parse := Json.json_parse;
     JSON_stringify := fun v => inr (stringify v);
     SyntaxError_message := fun _ => "Unexpected token in JSON";
     TypeError_message := fun v key =>
       "Cannot read properties of " ++ (if is_null v then "null" else "undefined")
         ++ " (reading '" ++ key ++ "')";
     ToPrimitive_message := fun _ => "Cannot convert object to primitive value";
     crypto_randomUUID := None;
     Date_now := fun w => (1700000000000, w);
     fetchImpl := next_reply |}.

(** A fresh client in front of the replies [w]. *)
Definition start (base : string) (w : World) : State World :=
  {| this := new_HttpClient base; world := w; fetched := [] |}.

(** A response with status [code] whose body arrives in the chunks
    [parts], each written as [Json.wire] reads it. *)
Definition reply (code : Z) (reason : string) (parts : list string) : Response :=
  {| status := code; statusText := reason;
     body := Some {| chunks := map Json.wire parts; failure := None |} |}.

End Scripted.

(** ** The vocabulary of the properties *)

(** A text without carriage return. *)
Fixpoint cr_free (s : string) : bool :=
  match s with
  | EmptyString => true
  | String c rest => negb (Ascii.eqb c CR) && cr_free rest
  end.

(** The text of one frame between two blank-line delimiters: it holds no
    blank line and does not end in a line feed (which would join the
    delimiter that follows it). *)
Fixpoint frame_body (s : string) : bool :=
  match s with
  | EmptyString => true
  | String c rest =>
      match rest with
      | EmptyString => negb (Ascii.eqb c LF)
      | String d _ => negb (Ascii.eqb c LF && Ascii.eqb d LF) && frame_body rest
      end
  end.

Definition blank_line : string := String LF (String LF EmptyString).

(** The stream that carries the frames [frames], each closed by a blank
    line. *)
Fixpoint stream_text (frames : list string) : string :=
  match frames with
  | [] => EmptyString
  | f :: rest => f ++ blank_line ++ stream_text rest
  end.

(** An envelope tagged with the protocol version. *)
Definition tagged (v : JSValue) : Prop :=
  exists fields, v = VObj fields /\ lookup "jsonrpc" fields = Some (VStr "2.0").

(** The two streaming methods never yield these. *)
Definition absent (v : JSValue) : Prop := v = VNull \/ v = VUndefined.

(** The flag of a capability on a card, as a boolean. *)
Definition capability_flag (card : JSValue) (capability : string) : bool :=
  truthy (get (get card "capabilities") capability).

(** A response with a success status whose body arrives whole in the
    given chunks. *)
Definition delivers (response : Response) (parts : list string) : Prop :=
  ok response = true /\ body response = Some {| chunks := parts; failure := None |}.

(** The public operations of a client, and a client going through a
    list of them one after the other. *)
Inductive Call : Type :=
| CallAgentCard
| CallSupports (capability : string)
| CallSendTask (params : JSValue)
| CallGetTask (params : JSValue)
| CallCancelTask (params : JSValue)
| CallSetTaskPushNotification (params : JSValue)
| CallGetTaskPushNotification (params : JSValue)
| CallSendTaskSubscribe (params : JSValue)
| CallResubscribeTask (params : JSValue).

Section Vocabulary.

Context {World : Type} {platform : Platform World}.

(** What the decoder reads as the payload of a frame that begins with
    the data prefix. *)
Definition payload (message : string) : string :=
  trim (substring_from (String.length "data: ") message).

(** The frame begins with the data prefix and its payload is the text
    of the envelope [envelope]. *)
Definition data_frame (message : string) (envelope : JSValue) : Prop :=
  prefix "data: " message = true
  /\ nonempty (payload message) = true
  /\ JSON_parse (payload message) = Some envelope.

(** A data frame whose envelope is tagged, has no [error] member and
    has the [result] member [r]. *)
Definition carries_result (message : string) (r : JSValue) : Prop :=
  exists fields,
    data_frame message (VObj fields)
    /\ lookup "jsonrpc" fields = Some (VStr "2.0")
    /\ lookup "error" fields = None
    /\ lookup "result" fields = Some r
    /\ r <> VUndefined.

(** A data frame whose envelope is tagged and has the [error] member
    [e], an object. *)
Definition carries_error (message : string) (e : JSValue) : Prop :=
  exists fields efields,
    data_frame message (VObj fields)
    /\ lookup "jsonrpc" fields = Some (VStr "2.0")
    /\ lookup "error" fields = Some e
    /\ e = VObj efields.

(** A data frame that fails the validation of the envelope's shape:
    its payload is no JSON text, or the value is no tagged envelope. *)
Definition malformed (message : string) : Prop :=
  prefix "data: " message = true
  /\ nonempty (payload message) = true
  /\ (JSON_parse (payload message) = None
      \/ exists v, JSON_parse (payload message) = Some v /\ ~ tagged v).

(** A program that ends normally with [x], leaves the state as it is
    and shows [evs]. *)
Definition shows {A} (m : Prog World A) (st : State World) (evs : list Event) (x : A)
  : Prop :=
  m st = {| events := evs; outcome := inr x; final := st |}.

(** Every run of [m] takes a state to one that [R] relates to it. *)
Definition respects {A} (R : State World -> State World -> Prop) (m : Prog World A)
  : Prop :=
  forall st, R st (final (m st)).

(** The client instance is the same in both states. *)
Definition same_client (a b : State World) : Prop := this a = this b.

Definition perform (c : Call) (st : State World) : State World :=
  match c with
  | CallAgentCard => final (agentCard st)
  | CallSupports capability => final (supports capability st)
  | CallSendTask params => final (sendTask params st)
  | CallGetTask params => final (getTask params st)
  | CallCancelTask params => final (cancelTask params st)
  | CallSetTaskPushNotification params => final (setTaskPushNotification params st)
  | CallGetTaskPushNotification params => final (getTaskPushNotification params st)
  | CallSendTaskSubscribe params => final (sendTaskSubscribe params st)
  | CallResubscribeTask params => final (resubscribeTask params st)
  end.

Definition perform_all (calls : list Call) (st : State World) : State World :=
  fold_left (fun s c => perform c s) calls st.

End Vocabulary.

(** ** Sample traffic

    Texts in the notation of [Json.wire], taken from the examples of the
    protocol: frames of a task stream, envelopes of unary responses and
    an agent card. *)
Module Samples.

Definition working : string :=
  "data: {'jsonrpc':'2.0','id':'x','result':{'state':'working'}}".
Definition completed : string :=
  "data: {'jsonrpc':'2.0','id':'x','result':{'state':'completed'}}".
Definition boom : string :=
  "data: {'jsonrpc':'2.0','id':'x','error':{'code':1,'message':'boom'}}".
Definition nothing : string :=
  "data: {'jsonrpc':'2.0','id':'x','result':null}".
Definition truncated : string :=
  "data: {'jsonrpc':'2.0','id':'x','result':".
Definition with_event_line : string :=
  "event: update~data: {'jsonrpc':'2.0','id':'x','result':{'state':'working'}}".
Definition with_id_line : string :=
  "data: {'jsonrpc':'2.0','id':'x','result':{'state':'working'}}~id: 7".

Definition empty_envelope : string := "{'jsonrpc':'2.0','id':'abc'}".
Definition task_envelope : string :=
  "{'jsonrpc':'2.0','id':'abc','result':{'id':'t1','status':'done'}}".
Definition not_found_envelope : string :=
  "{'jsonrpc':'2.0','id':'abc','error':{'code':-32001,'message':'Task not found'}}".
Definition card : string :=
  "{'name':'agent','capabilities':{'streaming':true,'pushNotifications':false}}".

Definition state_working : JSValue := VObj [("state", VStr "working")].
Definition state_completed : JSValue := VObj [("state", VStr "completed")].
Definition task_query : JSValue := VObj [("id", VStr "t1")].

Definition card_value : JSValue :=
  VObj [("name", VStr "agent");
        ("capabilities", VObj [("streaming", VBool true);
                               ("pushNotifications", VBool false)])].

(** Streams: the example of the protocol (a result, then an error)
    with one more result after it; a result, a frame cut short and a
    result, the second delimiter cut in two by the chunking; a result,
    a [null] result and a result. *)
Definition stream_with_error : Response :=
  Scripted.reply 200 "OK" [working ++ "~~" ++ boom ++ "~~"; completed ++ "~~"].
Definition stream_with_truncated : Response :=
  Scripted.reply 200 "OK" [working ++ "~~" ++ truncated ++ "~"; "~" ++ completed ++ "~~"].
Definition stream_with_null : Response :=
  Scripted.reply 200 "OK" [working ++ "~~" ++ nothing ++ "~~"; completed ++ "~~"].
Definition stream_with_event_line : Response :=
  Scripted.reply 200 "OK" [with_event_line ++ "~~"].

(** The line that the decoder makes of a status 500 with the error
    -32001 of the peer in the body. *)
Definition failure_line : string :=
  "HTTP error 500: Internal Server Error - " ++ Json.wire not_found_envelope.

(** A fresh client whose [fetchImpl] has no reply to give. *)
Definition offline : State Scripted.World := Scripted.start "http://agent.example/" [].

(** A fresh client whose [fetchImpl] will give the replies [replies]. *)
Definition online (replies : list Response) : State Scripted.World :=
  Scripted.start "http://agent.example/" (map inr replies).

End Samples.

(** ** The server base class

    [A2AServer] is abstract; its constructor is the one piece of code it
    has.  [TaskStore] is the type of the store implementations.  A member
    that the options leave out reads as [undefined]; [taskStore] is an
    object or missing.  A [CorsOptions] object is held by its JSON
    members. *)
Module A2AServerOptions.

Record t (TaskStore : Type) : Type := mk {
  taskStore : option TaskStore;
  cors : JSValue;
  basePath : JSValue;
  card : JSValue
}.

(** The default of the parameter, [{}]. *)
Definition empty (TaskStore : Type) : t TaskStore :=
  {| taskStore := None; cors := VUndefined; basePath := VUndefined; card := VUndefined |}.

End A2AServerOptions.

Module A2AServer.

Record t (TaskStore : Type) : Type := mk {
  taskStore : TaskStore;
  cors : JSValue;
  basePath : JSValue;
  card : JSValue
}.

(** Lines 29-37 of the server; [None] is a call without argument. *)
Definition constructor {TaskStore : Type} (given : option (A2AServerOptions.t TaskStore))
  : Thrown + t TaskStore :=
  let options := match given with
                 | Some o => o
                 | None => A2AServerOptions.empty TaskStore
                 end in
  match A2AServerOptions.taskStore options with
  | None => inl (Error "taskStore is required")
  | Some store =>
      inr {| taskStore := store;
             cors := nullish_or (A2AServerOptions.cors options) (VBool true);
             basePath := nullish_or (A2AServerOptions.basePath options) (VStr "/");
             card := A2AServerOptions.card options |}
  end.

End A2AServer.

(** ** More vocabulary *)

(** The request envelope of a call. *)
Definition envelope (method : string) (id params : JSValue) : JSValue :=
  VObj [("jsonrpc", VStr "2.0"); ("id", id); ("method", VStr method); ("params", params)].

(** A POST of a JSON text to [base]. *)
Definition post (base accept content : string) : Request :=
  {| url := base;
     http_method := "POST";
     headers := [("Content-Type", "application/json"); ("Accept", accept)];
     request_body := Some content |}.

(** The GET of the agent card. *)
Definition get_card (base : string) : Request :=
  {| url := base ++ "/agent-card";
     http_method := "GET";
     headers := [("Accept", "application/json")];
     request_body := None |}.

(** The requests that a call for [method] with the id [id] hands to
    [fetchImpl]: the POST of its envelope, and none where
    [JSON.stringify] throws on the envelope. *)
Definition requested {World : Type} {platform : Platform World}
    (base accept method : string) (id params : JSValue) : list Request :=
  match JSON_stringify (envelope method id params) with
  | inr content => [post base accept content]
  | inl _ => []
  end.

(** The local fault that a request raises for the error [e] caught at
    line 79, and the report of [e] on the console. *)
Definition network_fault (e : Thrown) : Thrown :=
  RpcError INTERNAL_ERROR ("Network error: " ++ message_of e) (Cause e).

Definition network_report (e : Thrown) : list Event :=
  [Console LevelError [Text "Network error during RPC call:"; Err e]].

(** The request of a call on the wire: the name of its method, what it
    accepts and its parameters; the two card operations make none. *)
Definition on_the_wire (c : Call) : option (string * string * JSValue) :=
  match c with
  | CallAgentCard | CallSupports _ => None
  | CallSendTask params => Some ("tasks/send", "application/json", params)
  | CallGetTask params => Some ("tasks/get", "application/json", params)
  | CallCancelTask params => Some ("tasks/cancel", "application/json", params)
  | CallSetTaskPushNotification params =>
      Some ("tasks/pushNotification/set", "application/json", params)
  | CallGetTaskPushNotification params =>
      Some ("tasks/pushNotification/get", "application/json", params)
  | CallSendTaskSubscribe params => Some ("tasks/sendSubscribe", "text/event-stream", params)
  | CallResubscribeTask params => Some ("tasks/resubscribe", "text/event-stream", params)
  end.

(** A request id as the wire format wants it. *)
Definition string_or_number (v : JSValue) : Prop :=
  (exists s, v = VStr s) \/ (exists n, v = VNum n).

(** A frame that the decoder passes over in silence: it does not begin
    with the data prefix, or nothing but white space follows the prefix. *)
Definition silent (message : string) : Prop :=
  prefix "data: " message = false \/ payload message = "".

(** The line of a stream that cannot be opened. *)
Definition stream_refusal (response : Response) : string :=
  "HTTP error " ++ Z_to_string (status response) ++ ": " ++ statusText response
  ++ " - Failed to establish stream.".

(** The last words of a stream that was opened. *)
Definition closing_events (expectedMethod : option string) (ending : option Thrown)
    (buffer : string) : list Event :=
  match ending with
  | Some e =>
      [Console LevelError
         [Text ("Error reading SSE stream for method " ++ shown expectedMethod ++ ":");
          Err e]]
  | None =>
      if nonempty (trim buffer) then
        [Console LevelWarn
           [Text ("SSE stream ended with partial data in buffer for method "
                  ++ shown expectedMethod ++ ": " ++ buffer)]]
      else []
  end
  ++ [ReleaseLock;
      Console LevelLog
        [Text ("SSE stream finished for method " ++ shown expectedMethod ++ ".")]].

(** The base URL of the client is the same in both states. *)
Definition same_base {World : Type} (a b : State World) : Prop :=
  baseUrl (this a) = baseUrl (this b).

(** What the streaming methods keep of the items of the decoder. *)
Definition present (v : JSValue) : bool := negb (is_undefined v) && negb (is_null v).

Section PublicMethods.

Context {World : Type} {platform : Platform World}.

(** The five unary methods with their names on the wire, and the two
    streaming methods with theirs. *)
Definition unary_methods : list ((JSValue -> Prog World JSValue) * string) :=
  [(sendTask, "tasks/send");
   (getTask, "tasks/get");
   (cancelTask, "tasks/cancel");
   (setTaskPushNotification, "tasks/pushNotification/set");
   (getTaskPushNotification, "tasks/pushNotification/get")].

Definition streaming_methods : list ((JSValue -> Prog World unit) * string) :=
  [(sendTaskSubscribe, "tasks/sendSubscribe");
   (resubscribeTask, "tasks/resubscribe")].

End PublicMethods.

(** ** More sample traffic *)
Module MoreSamples.

Definition ping : string := ": keep-alive".
Definition blank_data : string := "data:  ".
Definition no_tag_envelope : string := "{'id':'abc','result':{'id':'t1'}}".
Definition null_result_envelope : string := "{'jsonrpc':'2.0','id':'abc','result':null}".

(** A body whose reader fails after the chunks [parts]. *)
Definition broken (code : Z) (reason : string) (parts : list string) (e : Thrown)
  : Response :=
  {| status := code; statusText := reason;
     body := Some {| chunks := map Json.wire parts; failure := Some e |} |}.

Definition connection_reset : Thrown := Error "connection reset".

(** A frame closed by two Windows line ends. *)
Definition crlf_end : string := String CR (String LF (String CR (String LF ""))).
Definition working_crlf : Response :=
  {| status := 200; statusText := "OK";
     body := Some {| chunks := [Json.wire Samples.working ++ crlf_end]; failure := None |} |}.

(** A fresh client whose [fetchImpl] throws, then gives [replies]. *)
Definition flaky (replies : list Response) : State Scripted.World :=
  Scripted.start "http://agent.example/" (inl connection_reset :: map inr replies).

(** An error member whose [message] is an object with a member named
    [toString]. *)
Definition unconvertible_envelope : string :=
  "{'jsonrpc':'2.0','id':'abc','error':{'code':5,'message':{'toString':1}}}".

(** The scripted platform in front of parameters that hold a [BigInt]:
    [JSON.stringify] throws on every envelope made of them. *)
Definition unserialisable : Platform Scripted.World :=
  {| JSON_parse := Json.json_parse;
     JSON_stringify := fun _ => inl (Error "Do not know how to serialize a BigInt");
     SyntaxError_message := fun _ => "Unexpected token in JSON";
     TypeError_message := fun v key =>
       "Cannot read properties of " ++ (if is_null v then "null" else "undefined")
         ++ " (reading '" ++ key ++ "')";
     ToPrimitive_message := fun _ => "Cannot convert object to primitive value";
     crypto_randomUUID := None;
     Date_now := fun w => (1700000000000, w);
     fetchImpl := Scripted.next_reply |}.

End MoreSamples.

(** * Properties *)

(** ** The reader and the constructor on examples *)

Example json_parse_envelope :
  Json.json_parse (Json.wire "{'jsonrpc':'2.0','id':'abc','result':{'id':'t1','n':[1,-2,null]}}")
  = Some (VObj [("jsonrpc", VStr "2.0"); ("id", VStr "abc");
                ("result", VObj [("id", VStr "t1");
                                 ("n", VArr [VNum 1; VNum (-2); VNull])])]).
Proof. vm_compute. reflexivity. Qed.

Example json_parse_rejects_truncated :
  Json.json_parse (Json.wire "{'jsonrpc':'2.0','id':") = None.
Proof. vm_compute. reflexivity. Qed.

Example json_parse_repeated_key :
  Json.json_parse (Json.wire "{'a':1,'b':2,'a':3}") = Some (VObj [("a", VNum 3); ("b", VNum 2)]).
Proof. vm_compute. reflexivity. Qed.

Example new_HttpClient_slash :
  new_HttpClient "http://a/" = {| baseUrl := "http://a"; cachedAgentCard := VNull |}.
Proof. reflexivity. Qed.

(** Numbers as [String] writes them: every digit up to 2^53, the
    shortest digits that read back as the same double above, and an
    exponent from 10^21 on. *)
Example Number_toString_examples :
  Number_toString (-32603) = "-32603"
  /\ Number_toString 0 = "0"
  /\ Number_toString 1700000000000 = "1700000000000"
  /\ Number_toString 9007199254740992 = "9007199254740992"
  /\ Number_toString 1152921504606846976 = "1152921504606847000"
  /\ Number_toString (10 ^ 21) = "1e+21"
  /\ Number_toString 99999999999999991611392 = "1e+23"
  /\ Number_toString 1180591620717411303424 = "1.1805916207174113e+21".
Proof. vm_compute. tauto. Qed.

Example ToString_examples :
  ToString (VObj [("code", VNum 5)]) = Some "[object Object]"
  /\ ToString (VObj [("toString", VNum 1)]) = None
  /\ ToString (VArr [VNum 1; VNull; VStr "a"; VArr [VBool true; VUndefined]])
     = Some "1,,a,true,"
  /\ ToString (VArr [VObj [("toString", VNull)]]) = None
  /\ Error_text VUndefined = Some ""
  /\ Error_text VNull = Some "null".
Proof. vm_compute. tauto. Qed.

(** ** Splitting a text at its blank lines *)

(** Induction on a text two code units at a time, as [split_blank] and
    [frame_body] read it. *)
Lemma string_pair_ind (P : string -> Prop) :
  P EmptyString ->
  (forall c, P (String c EmptyString)) ->
  (forall c d s, P s -> P (String d s) -> P (String c (String d s))) ->
  forall s, P s.
Proof.
  intros Hnil Hone Hstep s.
  assert (both : P s /\ forall c, P (String c s)).
  { induction s as [|d s [IHs IHc]].
    - split; [exact Hnil | exact Hone].
    - split; [apply IHc |].
      intros c. apply Hstep; [exact IHs | apply IHc]. }
  exact (proj1 both).
Qed.

Lemma append_empty_r (s : string) : s ++ "" = s.
Proof. induction s as [|c s IH]; simpl; [reflexivity | now rewrite IH]. Qed.

Lemma append_assoc (a b c : string) : (a ++ b) ++ c = a ++ (b ++ c).
Proof. induction a as [|x a IH]; simpl; [reflexivity | now rewrite IH]. Qed.

Lemma concat_cons (c : string) (rest : list string) :
  String.concat "" (c :: rest) = c ++ String.concat "" rest.
Proof.
  destruct rest as [|d rest]; simpl.
  - now rewrite append_empty_r.
  - reflexivity.
Qed.

Lemma remove_cr_app (a b : string) : remove_cr (a ++ b) = remove_cr a ++ remove_cr b.
Proof.
  induction a as [|c a IH]; simpl; [reflexivity |].
  destruct (Ascii.eqb c CR); simpl; now rewrite IH.
Qed.

Lemma cr_free_remove_cr (s : string) : cr_free (remove_cr s) = true.
Proof.
  induction s as [|c s IH]; simpl; [reflexivity |].
  destruct (Ascii.eqb c CR) eqn:E; simpl; [exact IH | now rewrite E, IH].
Qed.

Lemma remove_cr_cr_free (s : string) : cr_free s = true -> remove_cr s = s.
Proof.
  induction s as [|c s IH]; simpl; [reflexivity |].
  destruct (Ascii.eqb c CR); simpl; [discriminate |].
  intros H. now rewrite IH.
Qed.

Lemma split_blank_nonempty (s : string) : split_blank s <> [].
Proof.
  induction s as [|c s IH]; simpl; [discriminate |].
  destruct s as [|d s'].
  - discriminate.
  - destruct (Ascii.eqb c LF && Ascii.eqb d LF); [discriminate |].
    destruct (split_blank (String d s')); [contradiction | discriminate].
Qed.

(** One step of [split_blank] on a text of two code units or more. *)
Lemma split_blank_step (c d : ascii) (s : string) :
  split_blank (String c (String d s)) =
  if (Ascii.eqb c LF && Ascii.eqb d LF)%bool
  then EmptyString :: split_blank s
  else cons_first c (split_blank (String d s)).
Proof. reflexivity. Qed.

Lemma popped_cons (x : string) (l : list string) :
  l <> [] -> popped (x :: l) = x :: popped l.
Proof. destruct l; [contradiction | reflexivity]. Qed.

Lemma pop_cons (x : string) (l : list string) :
  l <> [] -> pop_or_empty (x :: l) = pop_or_empty l.
Proof. destruct l; [contradiction | reflexivity]. Qed.

Lemma popped_app (l1 l2 : list string) :
  l2 <> [] -> popped (l1 ++ l2) = (l1 ++ popped l2)%list.
Proof. intros H. unfold popped. now apply removelast_app. Qed.

Lemma pop_app (l1 l2 : list string) :
  l2 <> [] -> pop_or_empty (l1 ++ l2) = pop_or_empty l2.
Proof.
  intros H. induction l1 as [|x l1 IH]; [reflexivity |].
  simpl app. rewrite pop_cons; [exact IH |].
  destruct l1; [exact H | discriminate].
Qed.

(** A text without blank line is its own single piece. *)
Lemma split_blank_single (s p : string) : split_blank s = [p] -> p = s.
Proof.
  revert p. induction s as [| c | c d s IHs IHd] using string_pair_ind; intros p.
  - simpl. now intros [= <-].
  - simpl. now intros [= <-].
  - rewrite split_blank_step.
    destruct (Ascii.eqb c LF && Ascii.eqb d LF).
    + intros H. exfalso. injection H as _ H. exact (split_blank_nonempty _ H).
    + destruct (split_blank (String d s)) as [|q [|q' l]] eqn:E; simpl.
      * now destruct (split_blank_nonempty _ E).
      * intros [= <-]. now rewrite (IHd q eq_refl).
      * discriminate.
Qed.

(** The piece that [pop] leaves in the buffer holds no blank line. *)
Lemma split_blank_pop (s : string) :
  split_blank (pop_or_empty (split_blank s)) = [pop_or_empty (split_blank s)].
Proof.
  induction s as [| c | c d s IHs IHd] using string_pair_ind.
  - reflexivity.
  - reflexivity.
  - rewrite split_blank_step.
    destruct (Ascii.eqb c LF && Ascii.eqb d LF) eqn:E.
    + rewrite pop_cons by apply split_blank_nonempty. exact IHs.
    + destruct (split_blank (String d s)) as [|q [|q' l]] eqn:Eq.
      * now destruct (split_blank_nonempty _ Eq).
      * pose proof (split_blank_single _ Eq) as ->.
        change (split_blank (String c (String d s)) = [String c (String d s)]).
        now rewrite split_blank_step, E, Eq.
      * exact IHd.
Qed.

(** Reading on after a first part: the pieces completed by the first
    part stay, and the split goes on from the piece it left open. *)
Lemma split_blank_app (a b : string) :
  split_blank (a ++ b) =
  (popped (split_blank a) ++ split_blank (pop_or_empty (split_blank a) ++ b))%list.
Proof.
  induction a as [| c | c d a IHa IHd] using string_pair_ind.
  - reflexivity.
  - reflexivity.
  - change ((String c (String d a)) ++ b) with (String c (String d (a ++ b))).
    rewrite !split_blank_step.
    destruct (Ascii.eqb c LF && Ascii.eqb d LF) eqn:E.
    + rewrite popped_cons, pop_cons by apply split_blank_nonempty.
      now rewrite IHa.
    + change (String d (a ++ b)) with (String d a ++ b). rewrite IHd.
      destruct (split_blank (String d a)) as [|q [|q' l]] eqn:Eq.
      * now destruct (split_blank_nonempty _ Eq).
      * pose proof (split_blank_single _ Eq) as ->.
        change (cons_first c (split_blank (String d a ++ b))
                = split_blank (String c (String d (a ++ b)))).
        now rewrite split_blank_step, E.
      * reflexivity.
Qed.

Lemma cr_free_app (a b : string) : cr_free (a ++ b) = cr_free a && cr_free b.
Proof.
  induction a as [|c a IH]; simpl; [reflexivity |].
  now rewrite IH, andb_assoc.
Qed.

Lemma cr_free_cons_first (c : ascii) (l : list string) :
  Ascii.eqb c CR = false ->
  Forall (fun p => cr_free p = true) l ->
  Forall (fun p => cr_free p = true) (cons_first c l).
Proof.
  intros Hc Hl. destruct l as [|p l]; simpl.
  - constructor; [simpl; now rewrite Hc | constructor].
  - inversion Hl; subst. constructor; [simpl; now rewrite Hc | assumption].
Qed.

(** The pieces of a text without carriage return have none. *)
Lemma split_blank_cr_free (s : string) :
  cr_free s = true -> Forall (fun p => cr_free p = true) (split_blank s).
Proof.
  induction s as [| c | c d s IHs IHd] using string_pair_ind.
  - intros _. repeat constructor.
  - intros H. repeat constructor. exact H.
  - intros H. rewrite split_blank_step.
    simpl in H. apply andb_true_iff in H as [Hc H].
    apply negb_true_iff in Hc.
    destruct (Ascii.eqb c LF && Ascii.eqb d LF).
    + constructor; [reflexivity |]. apply IHs.
      apply andb_true_iff in H as [_ H]. exact H.
    + apply cr_free_cons_first; [exact Hc | now apply IHd].
Qed.

Lemma pop_cr_free (l : list string) :
  Forall (fun p => cr_free p = true) l -> cr_free (pop_or_empty l) = true.
Proof.
  induction 1 as [|p l Hp Hl IH]; [reflexivity |].
  destruct l; [exact Hp | exact IH].
Qed.

(** A frame, its delimiter, and what follows. *)
Lemma split_blank_frame (f rest : string) :
  frame_body f = true ->
  split_blank (f ++ blank_line ++ rest) = f :: split_blank rest.
Proof.
  induction f as [| c | c d f IHf IHd] using string_pair_ind; intros H.
  - reflexivity.
  - simpl in H. apply negb_true_iff in H.
    change (String c "" ++ blank_line ++ rest)
      with (String c (String LF (String LF rest))).
    rewrite split_blank_step, H. simpl andb. cbv iota.
    rewrite split_blank_step. reflexivity.
  - change (frame_body (String c (String d f)))
      with (negb (Ascii.eqb c LF && Ascii.eqb d LF) && frame_body (String d f)) in H.
    apply andb_true_iff in H as [Hcd H]. apply negb_true_iff in Hcd.
    change (String c (String d f) ++ blank_line ++ rest)
      with (String c (String d (f ++ blank_line ++ rest))).
    rewrite split_blank_step, Hcd.
    change (String d (f ++ blank_line ++ rest)) with (String d f ++ blank_line ++ rest).
    now rewrite IHd.
Qed.

Lemma split_blank_stream (frames : list string) :
  Forall (fun f => frame_body f = true) frames ->
  split_blank (stream_text frames) = (frames ++ [EmptyString])%list.
Proof.
  induction 1 as [|f frames Hf _ IH]; [reflexivity |].
  change (stream_text (f :: frames)) with (f ++ blank_line ++ stream_text frames).
  rewrite split_blank_frame by exact Hf. now rewrite IH.
Qed.

(** ** Runs *)

Section Runs.

Context {World : Type} {platform : Platform World}.

Lemma after_nil {A} (r : Run World A) : after [] r = r.
Proof. now destruct r. Qed.

Lemma after_after {A} (e1 e2 : list Event) (r : Run World A) :
  after e1 (after e2 r) = after (e1 ++ e2)%list r.
Proof. unfold after. simpl. now rewrite app_assoc. Qed.

(** One step of a bind and of a handler, by the run of the first part. *)
Lemma bind_run {A B} (m : Prog World A) (k : A -> Prog World B) (st : State World) :
  bind m k st =
  match outcome (m st) with
  | inl e => {| events := events (m st); outcome := inl e; final := final (m st) |}
  | inr x => after (events (m st)) (k x (final (m st)))
  end.
Proof. reflexivity. Qed.

Lemma try_catch_run {A} (m : Prog World A) (h : Thrown -> Prog World A)
    (st : State World) :
  try_catch m h st =
  match outcome (m st) with
  | inl e => after (events (m st)) (h e (final (m st)))
  | inr _ => m st
  end.
Proof. reflexivity. Qed.

Lemma bind_ret_l {A B} (x : A) (k : A -> Prog World B) (st : State World) :
  bind (ret x) k st = k x st.
Proof. unfold bind, ret. simpl. apply after_nil. Qed.

Lemma bind_assoc {A B C} (m : Prog World A) (k : A -> Prog World B)
    (h : B -> Prog World C) (st : State World) :
  bind (bind m k) h st = bind m (fun x => bind (k x) h) st.
Proof.
  unfold bind. destruct (m st) as [e1 [err|x] s1]; simpl; [reflexivity |].
  destruct (k x s1) as [e2 [err|y] s2]; simpl; [reflexivity |].
  unfold after. simpl. now rewrite app_assoc.
Qed.

Lemma bind_ext {A B} (m : Prog World A) (k1 k2 : A -> Prog World B) (st : State World) :
  (forall x s, k1 x s = k2 x s) -> bind m k1 st = bind m k2 st.
Proof.
  intros H. unfold bind. destruct (m st) as [e1 [err|x] s1]; simpl; [reflexivity |].
  now rewrite H.
Qed.

Lemma bind_ext_l {A B} (m1 m2 : Prog World A) (k : A -> Prog World B) (st : State World) :
  m1 st = m2 st -> bind m1 k st = bind m2 k st.
Proof. intros H. unfold bind. now rewrite H. Qed.

Lemma for_each_app {A} (f : A -> Prog World unit) (l1 l2 : list A) (st : State World) :
  for_each f (l1 ++ l2) st = bind (for_each f l1) (fun _ => for_each f l2) st.
Proof.
  revert st. induction l1 as [|x l1 IH]; intros st.
  - simpl. now rewrite bind_ret_l.
  - simpl. rewrite bind_assoc. apply bind_ext. intros _ s. apply IH.
Qed.

Lemma shows_bind {A B} (m : Prog World A) (k : A -> Prog World B) st e1 e2 x y :
  shows m st e1 x -> shows (k x) st e2 y -> shows (bind m k) st (e1 ++ e2) y.
Proof.
  unfold shows, bind. intros -> . simpl. now intros ->.
Qed.

End Runs.

(** ** The streaming frame decoder *)

Section Streaming.

Context {World : Type} {platform : Platform World}.

Variable expectedMethod : option string.

(** A frame that carries a result yields it. *)
Lemma handle_message_result (message : string) (r : JSValue) (st : State World) :
  carries_result message r ->
  shows (handle_message expectedMethod message) st [Yield r] tt.
Proof.
  intros (fields & (Hp & Hn & Hj) & Htag & Herr & Hres & Hr).
  unfold shows, handle_message. fold (payload message).
  rewrite Hp, Hn. unfold try_catch, bind, parse. rewrite Hj.
  simpl. rewrite Htag, Herr, Hres. simpl.
  destruct r; try reflexivity. now destruct Hr.
Qed.

(** A frame that does not begin with the data prefix is passed over
    in silence. *)
Lemma handle_message_other (message : string) (st : State World) :
  prefix "data: " message = false ->
  shows (handle_message expectedMethod message) st [] tt.
Proof. intros H. unfold shows, handle_message. now rewrite H. Qed.

(** A malformed frame is reported on the console and nothing more. *)
Lemma handle_message_malformed (message : string) (st : State World) :
  malformed message ->
  exists args, shows (handle_message expectedMethod message) st [Console LevelError args] tt.
Proof.
  intros (Hp & Hn & Hbad).
  unfold shows, handle_message. fold (payload message).
  rewrite Hp, Hn. unfold try_catch, bind, parse.
  destruct Hbad as [Hnone | (v & Hsome & Hv)].
  - rewrite Hnone. simpl. eexists. reflexivity.
  - rewrite Hsome. simpl.
    destruct v as [| | b | n | s | items | fields]; simpl; try (eexists; reflexivity).
    destruct (lookup "jsonrpc" fields) as [tag|] eqn:Etag; simpl;
      [| eexists; reflexivity].
    destruct tag as [| | b | n | s | items | fs]; simpl; try (eexists; reflexivity).
    destruct (String.eqb_spec s "2.0") as [-> | Hs]; simpl; [| eexists; reflexivity].
    destruct Hv. exists fields. split; [reflexivity | exact Etag].
Qed.

(** The [throw] of line 233 stands inside the [try] of line 214, whose
    [catch] takes every exception: a frame that carries an error is
    reported twice on the console, and the loop goes on. *)
Lemma handle_message_error (message : string) (e : JSValue) (st : State World) :
  carries_error message e ->
  shows (handle_message expectedMethod message) st
    [Console LevelError
       [Text ("Error received in SSE stream for method " ++ shown expectedMethod ++ ":");
        Val e];
     Console LevelError
       [Text ("Failed to parse SSE data line for method " ++ shown expectedMethod ++ ":");
        Text (payload message);
        Err (new_RpcError (get e "code") (get e "message") (Data (get e "data")))]]
    tt.
Proof.
  intros (fields & efields & (Hp & Hn & Hj) & Htag & Herr & ->).
  unfold shows, handle_message. fold (payload message).
  rewrite Hp, Hn. unfold try_catch, bind, parse. rewrite Hj.
  simpl. rewrite Htag, Herr. reflexivity.
Qed.

(** No frame makes the loop body throw or touch the state. *)
Lemma handle_message_total (message : string) (st : State World) :
  exists evs, shows (handle_message expectedMethod message) st evs tt.
Proof.
  unfold shows, handle_message.
  destruct (prefix "data: " message); [| eexists; reflexivity].
  destruct (nonempty _); [| eexists; reflexivity].
  unfold try_catch, bind, parse.
  destruct (JSON_parse _) as [v|]; simpl; [| eexists; reflexivity].
  destruct (_ || _); simpl; [eexists; reflexivity |].
  destruct (truthy _); simpl; [eexists; reflexivity |].
  destruct (is_undefined _); simpl; eexists; reflexivity.
Qed.

Lemma for_each_total (frames : list string) (st : State World) :
  exists evs, shows (for_each (handle_message expectedMethod) frames) st evs tt.
Proof.
  induction frames as [|f frames [evs IH]].
  - exists []. reflexivity.
  - destruct (handle_message_total f st) as [e1 H1].
    exists (e1 ++ evs)%list. simpl. eapply shows_bind; [exact H1 | exact IH].
Qed.

Lemma for_each_results (frames : list string) (rs : list JSValue) (st : State World) :
  Forall2 carries_result frames rs ->
  shows (for_each (handle_message expectedMethod) frames) st (map Yield rs) tt.
Proof.
  induction 1 as [|f r frames rs Hf _ IH].
  - reflexivity.
  - simpl for_each. change (map Yield (r :: rs)) with ([Yield r] ++ map Yield rs)%list.
    eapply shows_bind; [now apply handle_message_result | exact IH].
Qed.

(** The loop over the chunks, told by the whole text: with [buffer]
    a piece left open by earlier reads, the loop handles the frames
    that the rest of the text completes and ends on the piece that
    stays open. *)
Lemma read_loop_whole (pending : list string) (ending : option Thrown)
    (buffer : string) (st : State World) :
  cr_free buffer = true ->
  split_blank buffer = [buffer] ->
  let lines := split_blank (buffer ++ remove_cr (String.concat "" pending)) in
  read_loop expectedMethod pending ending buffer st =
  bind (for_each (handle_message expectedMethod) (popped lines))
       (fun _ => read_loop expectedMethod [] ending (pop_or_empty lines)) st.
Proof.
  revert buffer st. induction pending as [|value later IH]; intros buffer st Hcr Hone lines.
  - subst lines. simpl String.concat. simpl remove_cr. rewrite append_empty_r, Hone.
    simpl popped. simpl pop_or_empty. simpl for_each. now rewrite bind_ret_l.
  - subst lines. rewrite concat_cons, remove_cr_app, <- append_assoc.
    rewrite split_blank_app.
    set (first := split_blank (buffer ++ remove_cr value)).
    set (rest := split_blank (pop_or_empty first ++ remove_cr (String.concat "" later))).
    assert (Hrest : rest <> []) by apply split_blank_nonempty.
    rewrite popped_app, pop_app by exact Hrest.
    rewrite (bind_ext_l _ _ _ st (for_each_app _ _ _ st)), bind_assoc.
    change (read_loop expectedMethod (value :: later) ending buffer st)
      with (bind (for_each (handle_message expectedMethod)
                    (popped (split_blank (remove_cr (buffer ++ value)))))
                 (fun _ => read_loop expectedMethod later ending
                             (pop_or_empty (split_blank (remove_cr (buffer ++ value)))))
                 st).
    rewrite remove_cr_app, (remove_cr_cr_free _ Hcr). fold first.
    apply bind_ext. intros _ s. apply IH.
    + apply pop_cr_free, split_blank_cr_free.
      now rewrite cr_free_app, Hcr, cr_free_remove_cr.
    + apply split_blank_pop.
Qed.

(** The stream of the frames [frames], in whatever chunks and with
    whatever line ends it arrives: the decoder handles exactly these
    frames, in order, and then releases the reader. *)
Lemma stream_of_frames (response : Response) (parts frames : list string)
    (st : State World) :
  delivers response parts ->
  remove_cr (String.concat "" parts) = stream_text frames ->
  Forall (fun f => frame_body f = true) frames ->
  _handleStreamingResponse response expectedMethod st =
  after (events (for_each (handle_message expectedMethod) frames st))
    {| events := [ReleaseLock;
                  Console LevelLog
                    [Text ("SSE stream finished for method "
                           ++ shown expectedMethod ++ ".")]];
       outcome := inr tt; final := st |}.
Proof.
  intros [Hok Hbody] Htext Hframes.
  unfold _handleStreamingResponse. rewrite Hok, Hbody. simpl chunks. simpl failure.
  unfold try_finally, try_catch.
  rewrite read_loop_whole by reflexivity.
  simpl append. rewrite Htext, split_blank_stream by exact Hframes.
  rewrite popped_app, pop_app by discriminate. simpl popped. rewrite app_nil_r.
  destruct (for_each_total frames st) as [evs Hevs]. unfold shows in Hevs.
  unfold bind. rewrite Hevs. simpl. unfold after. simpl.
  now rewrite !app_nil_r.
Qed.

End Streaming.

Lemma yields_app (e1 e2 : list Event) : yields (e1 ++ e2) = (yields e1 ++ yields e2)%list.
Proof.
  induction e1 as [|ev e1 IH]; [reflexivity |].
  destruct ev; simpl; now rewrite IH.
Qed.

Lemma yields_map_Yield (rs : list JSValue) : yields (map Yield rs) = rs.
Proof. induction rs as [|r rs IH]; simpl; [reflexivity | now rewrite IH]. Qed.

Section StreamingClaims.

Context {World : Type} {platform : Platform World}.

(** C4.  However the text of a stream is cut into chunks, also inside
    a blank-line delimiter, the streaming decoder runs as it does on
    the same text delivered in one chunk: it yields the same results
    in the same order, reports the same on the console and ends the
    same way. *)
Theorem chunking_does_not_matter (code : Z) (reason : string) (parts : list string)
    (ending : option Thrown) (expectedMethod : option string) (st : State World) :
  _handleStreamingResponse
    {| status := code; statusText := reason;
       body := Some {| chunks := parts; failure := ending |} |} expectedMethod st
  = _handleStreamingResponse
      {| status := code; statusText := reason;
         body := Some {| chunks := [String.concat "" parts]; failure := ending |} |}
      expectedMethod st.
Proof.
  unfold _handleStreamingResponse, ok. cbn [status body statusText].
  destruct ((200 <=? code) && (code <=? 299)).
  - unfold try_finally, try_catch. cbn [chunks failure].
    rewrite (read_loop_whole expectedMethod parts ending (buffer := "") st
               eq_refl eq_refl).
    rewrite (read_loop_whole expectedMethod [String.concat "" parts] ending
               (buffer := "") st eq_refl eq_refl).
    reflexivity.
  - reflexivity.
Qed.

(** C6.  In a stream of frames of which one fails the validation of
    the envelope's shape and every other carries a result, the decoder
    yields the results of the others, in order, and ends normally; the
    malformed frame is reported on the console. *)
Theorem one_malformed_frame_is_skipped (response : Response)
    (parts before later : list string) (bad : string) (rs1 rs2 : list JSValue)
    (expectedMethod : option string) (st : State World) :
  delivers response parts ->
  remove_cr (String.concat "" parts) = stream_text (before ++ bad :: later) ->
  Forall (fun f => frame_body f = true) (before ++ bad :: later) ->
  Forall2 carries_result before rs1 ->
  malformed bad ->
  Forall2 carries_result later rs2 ->
  let r := _handleStreamingResponse response expectedMethod st in
  yields (events r) = (rs1 ++ rs2)%list
  /\ outcome r = inr tt
  /\ exists args, In (Console LevelError args) (events r).
Proof.
  intros Hresp Htext Hframes H1 Hbad H2 r. subst r.
  rewrite (stream_of_frames expectedMethod st Hresp Htext Hframes).
  destruct (handle_message_malformed expectedMethod st Hbad) as [args Hargs].
  assert (Hrun : shows (for_each (handle_message expectedMethod) (before ++ bad :: later)) st
                   (map Yield rs1 ++ [Console LevelError args] ++ map Yield rs2) tt).
  { unfold shows. rewrite for_each_app.
    eapply shows_bind; [now apply for_each_results |].
    simpl for_each. eapply shows_bind; [exact Hargs | now apply for_each_results]. }
  unfold shows in Hrun. rewrite Hrun. unfold after. cbn [events outcome final].
  repeat split.
  - rewrite !yields_app. cbn [yields]. now rewrite !yields_map_Yield, app_nil_r.
  - exists args. apply in_or_app. left. apply in_or_app. right. now left.
Qed.

(** The same stream with a frame that carries an error in the place of
    the malformed one: the error is reported, never raised, and the
    results after it are yielded like those before it. *)
Lemma error_frame_is_passed_over (response : Response)
    (parts before later : list string) (bad : string) (e : JSValue)
    (rs1 rs2 : list JSValue) (expectedMethod : option string) (st : State World) :
  delivers response parts ->
  remove_cr (String.concat "" parts) = stream_text (before ++ bad :: later) ->
  Forall (fun f => frame_body f = true) (before ++ bad :: later) ->
  Forall2 carries_result before rs1 ->
  carries_error bad e ->
  Forall2 carries_result later rs2 ->
  yields (events (_handleStreamingResponse response expectedMethod st)) = (rs1 ++ rs2)%list
  /\ outcome (_handleStreamingResponse response expectedMethod st) = inr tt.
Proof.
  intros Hresp Htext Hframes H1 Hbad H2.
  rewrite (stream_of_frames expectedMethod st Hresp Htext Hframes).
  pose proof (handle_message_error expectedMethod st Hbad) as Hargs.
  match type of Hargs with shows _ _ ?evs _ => set (reports := evs) in Hargs end.
  assert (Hrun : shows (for_each (handle_message expectedMethod) (before ++ bad :: later)) st
                   (map Yield rs1 ++ reports ++ map Yield rs2) tt).
  { unfold shows. rewrite for_each_app.
    eapply shows_bind; [now apply for_each_results |].
    simpl for_each. eapply shows_bind; [exact Hargs | now apply for_each_results]. }
  unfold shows in Hrun. rewrite Hrun. unfold after. cbn [events outcome final].
  split; [| reflexivity].
  rewrite !yields_app. subst reports. cbn [yields].
  now rewrite !yields_map_Yield, app_nil_r.
Qed.

(** The amended C5.  A frame that begins with the data prefix is
    processed: the text after the prefix, up to the end of the frame
    and trimmed, is parsed as the envelope when it is not empty, and
    the frame yields its result or is reported on the console.  A
    frame that does not begin with the prefix is ignored, wherever
    else in it a data line stands. *)
Theorem frame_is_read_from_its_data_prefix (expectedMethod : option string)
    (message : string) (st : State World) :
  (forall r, carries_result message r ->
             shows (handle_message expectedMethod message) st [Yield r] tt)
  /\ (prefix "data: " message = true -> nonempty (payload message) = true ->
      events (handle_message expectedMethod message st) <> []
      /\ outcome (handle_message expectedMethod message st) = inr tt)
  /\ (prefix "data: " message = false ->
      shows (handle_message expectedMethod message) st [] tt).
Proof.
  split; [| split].
  - intros r Hr. now apply handle_message_result.
  - intros Hp Hn. unfold handle_message. fold (payload message). rewrite Hp, Hn.
    unfold try_catch, bind, parse.
    destruct (JSON_parse _) as [v|]; simpl; [| split; [discriminate | reflexivity]].
    destruct (_ || _); simpl; [split; [discriminate | reflexivity] |].
    destruct (truthy _); simpl; [split; [discriminate | reflexivity] |].
    destruct (is_undefined _); simpl; split; (discriminate || reflexivity).
  - apply handle_message_other.
Qed.

(** What the loop of the two streaming methods keeps. *)
Lemma replay_filters (evs : list Event) (st : State World) :
  let loop_body := fun item : JSValue =>
    if negb (is_undefined item) && negb (is_null item) then yield item else ret tt in
  exists out,
    shows (replay evs loop_body) st out tt
    /\ yields out = filter (fun v => negb (is_undefined v) && negb (is_null v)) (yields evs).
Proof.
  intros loop_body. induction evs as [|ev evs (out & Hrun & Hout)].
  - exists []. split; reflexivity.
  - destruct ev as [item | level args |].
    + simpl replay. simpl yields. simpl filter. subst loop_body. cbv beta.
      destruct (negb (is_undefined item) && negb (is_null item)).
      * exists ([Yield item] ++ out)%list. split.
        -- eapply shows_bind; [reflexivity | exact Hrun].
        -- simpl. now rewrite Hout.
      * exists ([] ++ out)%list. split.
        -- eapply shows_bind; [reflexivity | exact Hrun].
        -- exact Hout.
    + exists ([Console level args] ++ out)%list. split.
      * simpl replay. eapply shows_bind; [reflexivity | exact Hrun].
      * exact Hout.
    + exists ([ReleaseLock] ++ out)%list. split.
      * simpl replay. eapply shows_bind; [reflexivity | exact Hrun].
      * exact Hout.
Qed.

(** A request shows console calls only. *)
Lemma _makeHttpRequest_yields (method : string) (params : JSValue) (accept : string)
    (st : State World) :
  yields (events (_makeHttpRequest method params accept st)) = [].
Proof.
  unfold _makeHttpRequest, _generateRequestId, serialise, bind, try_catch, fetch, engine,
    read_this.
  destruct crypto_randomUUID as [randomUUID|]; simpl.
  - destruct (randomUUID (world st)) as [uuid w]; simpl.
    destruct (JSON_stringify _) as [e|content]; simpl; [reflexivity |].
    destruct (fetchImpl _ w) as [[e|resp] w']; reflexivity.
  - destruct (Date_now (world st)) as [now w]; simpl.
    destruct (JSON_stringify _) as [e|content]; simpl; [reflexivity |].
    destruct (fetchImpl _ w) as [[e|resp] w']; reflexivity.
Qed.

(** The items of a streaming method are the items of the decoder that
    are neither [null] nor [undefined]. *)
Lemma streamGenerator_yields (method : string) (params : JSValue) (st : State World) :
  let request := _makeHttpRequest method params "text/event-stream" st in
  yields (events (streamGenerator method params st)) =
  match outcome request with
  | inl _ => []
  | inr response =>
      filter (fun v => negb (is_undefined v) && negb (is_null v))
        (yields (events (_handleStreamingResponse response (Some method) (final request))))
  end.
Proof.
  intros request. unfold streamGenerator, bind. fold request.
  pose proof (_makeHttpRequest_yields method params "text/event-stream" st) as Hreq.
  fold request in Hreq.
  destruct (outcome request) as [e | response]; simpl; [exact Hreq |].
  rewrite yields_app, Hreq. simpl. unfold for_await.
  set (inner := _handleStreamingResponse response (Some method) (final request)).
  destruct (replay_filters (events inner) (final inner)) as (out & Hrun & Hout).
  unfold shows in Hrun. rewrite Hrun. simpl. exact Hout.
Qed.

(** C10.  No item of the two streaming methods is [null] or
    [undefined].  A frame whose envelope has the result [null] comes
    out of the frame decoder as an item and is dropped by the loop of
    the method: where the request is answered by a stream of frames
    that carry the results [rs], the decoder yields [rs] and the
    method yields those of [rs] that are neither [null] nor
    [undefined]. *)
Theorem streaming_methods_yield_no_null (params : JSValue) (st : State World) :
  Forall (fun v => ~ absent v) (yields (events (sendTaskSubscribe params st)))
  /\ Forall (fun v => ~ absent v) (yields (events (resubscribeTask params st)))
  /\ (forall method response parts frames rs,
        outcome (_makeHttpRequest method params "text/event-stream" st) = inr response ->
        delivers response parts ->
        remove_cr (String.concat "" parts) = stream_text frames ->
        Forall (fun f => frame_body f = true) frames ->
        Forall2 carries_result frames rs ->
        (forall s, yields (events (_handleStreamingResponse response (Some method) s)) = rs)
        /\ yields (events (streamGenerator method params st))
           = filter (fun v => negb (is_undefined v) && negb (is_null v)) rs).
Proof.
  assert (Hkeep : forall l,
            Forall (fun v => ~ absent v)
              (filter (fun v => negb (is_undefined v) && negb (is_null v)) l)).
  { intros l. apply Forall_forall. intros v Hv. apply filter_In in Hv as [_ Hv].
    intros [-> | ->]; discriminate. }
  assert (Hgen : forall method,
            Forall (fun v => ~ absent v) (yields (events (streamGenerator method params st)))).
  { intros method. rewrite streamGenerator_yields.
    destruct (outcome _); [constructor | apply Hkeep]. }
  split; [apply Hgen | split; [apply Hgen |]].
  intros method response parts frames rs Hreq Hresp Htext Hframes Hrs.
  assert (Hinner : forall s,
            yields (events (_handleStreamingResponse response (Some method) s)) = rs).
  { intros s. rewrite (stream_of_frames (Some method) s Hresp Htext Hframes).
    pose proof (for_each_results (Some method) s Hrs) as Hrun. unfold shows in Hrun.
    rewrite Hrun. simpl. rewrite yields_app, yields_map_Yield. simpl.
    now rewrite app_nil_r. }
  split; [exact Hinner |].
  rewrite streamGenerator_yields. cbv zeta. rewrite Hreq. now rewrite Hinner.
Qed.

End StreamingClaims.

(** ** Programs that keep a relation between the states *)

Section Respect.

Context {World : Type} {platform : Platform World}.

Variable R : State World -> State World -> Prop.
Hypothesis R_refl : forall s, R s s.
Hypothesis R_trans : forall a b c, R a b -> R b c -> R a c.

Lemma respects_ret {A} (x : A) : respects R (ret x).
Proof. intros st. apply R_refl. Qed.

Lemma respects_throw {A} (e : Thrown) : respects R (throw (A := A) e).
Proof. intros st. apply R_refl. Qed.

Lemma respects_serialise (v : JSValue) : respects R (serialise v).
Proof. intros st. unfold serialise. destruct (JSON_stringify v); apply R_refl. Qed.

Lemma respects_emit (ev : Event) : respects R (emit ev).
Proof. intros st. apply R_refl. Qed.

Lemma respects_read_this : respects R read_this.
Proof. intros st. apply R_refl. Qed.

Lemma respects_bind {A B} (m : Prog World A) (k : A -> Prog World B) :
  respects R m -> (forall x, respects R (k x)) -> respects R (bind m k).
Proof.
  intros Hm Hk st. unfold bind. specialize (Hm st).
  destruct (m st) as [evs [e|x] s]; simpl in *; [exact Hm |].
  eapply R_trans; [exact Hm | apply Hk].
Qed.

Lemma respects_try_catch {A} (m : Prog World A) (h : Thrown -> Prog World A) :
  respects R m -> (forall e, respects R (h e)) -> respects R (try_catch m h).
Proof.
  intros Hm Hh st. unfold try_catch. specialize (Hm st).
  destruct (m st) as [evs [e|x] s]; simpl in *; [| exact Hm].
  eapply R_trans; [exact Hm | apply Hh].
Qed.

Lemma respects_try_finally {A} (m : Prog World A) (c : Prog World unit) :
  respects R m -> respects R c -> respects R (try_finally m c).
Proof.
  intros Hm Hc st. unfold try_finally. simpl.
  eapply R_trans; [apply Hm | apply Hc].
Qed.

Lemma respects_attempt {A} (m : Prog World A) : respects R m -> respects R (attempt m).
Proof. intros Hm st. apply Hm. Qed.

Lemma respects_for_each {A} (f : A -> Prog World unit) (l : list A) :
  (forall x, respects R (f x)) -> respects R (for_each f l).
Proof.
  intros Hf. induction l as [|x l IH]; simpl.
  - apply respects_ret.
  - apply respects_bind; [apply Hf | intros _; exact IH].
Qed.

Lemma respects_replay (evs : list Event) (loop_body : JSValue -> Prog World unit) :
  (forall item, respects R (loop_body item)) -> respects R (replay evs loop_body).
Proof.
  intros Hb. induction evs as [|ev evs IH]; simpl.
  - apply respects_ret.
  - destruct ev; apply respects_bind; try apply Hb; try apply respects_emit;
      intros _; exact IH.
Qed.

Lemma respects_for_await (iterable : Prog World unit)
    (loop_body : JSValue -> Prog World unit) :
  respects R iterable -> (forall item, respects R (loop_body item)) ->
  respects R (for_await iterable loop_body).
Proof.
  intros Hi Hb st. unfold for_await.
  assert (H : R st (final (replay (events (iterable st)) loop_body (final (iterable st))))).
  { eapply R_trans; [apply Hi | apply respects_replay, Hb]. }
  destruct (outcome (replay _ _ _)); exact H.
Qed.

(** The parts of the decoders. *)

Lemma respects_parse (t : string) : respects R (parse t).
Proof. unfold parse. destruct (JSON_parse t); [apply respects_ret | apply respects_throw]. Qed.

Lemma respects_prop (v : JSValue) (key : string) : respects R (prop v key).
Proof. unfold prop. destruct (is_nullish v); [apply respects_throw | apply respects_ret]. Qed.

Lemma respects_text (response : Response) : respects R (text response).
Proof.
  unfold text. destruct (body response) as [stream|]; [| apply respects_ret].
  destruct (failure stream); [apply respects_throw | apply respects_ret].
Qed.

Lemma respects_on_response_error {A} m b e :
  respects R (on_response_error (A := A) m b e).
Proof.
  unfold on_response_error. apply respects_bind; [apply respects_emit |].
  intros _. destruct (is_RpcError e); apply respects_throw.
Qed.

Lemma respects_handleJsonResponse (response : Response) (m : option string) :
  respects R (_handleJsonResponse response m).
Proof.
  unfold _handleJsonResponse.
  apply respects_bind; [apply respects_attempt, respects_text |].
  intros [e | responseBody]; [apply respects_on_response_error |].
  apply respects_try_catch; [| intros e; apply respects_on_response_error].
  destruct (negb (ok response)).
  - apply respects_bind; [| intros _; apply respects_throw].
    apply respects_try_catch; [| intros _; apply respects_ret].
    apply respects_bind; [apply respects_parse |]. intros parsed.
    apply respects_bind; [apply respects_prop |]. intros errorData.
    destruct (truthy errorData); [apply respects_throw | apply respects_ret].
  - apply respects_bind; [apply respects_parse |]. intros v.
    destruct (_ || _); [apply respects_throw |].
    destruct (truthy _); [apply respects_throw | apply respects_ret].
Qed.

Lemma respects_handle_message (m : option string) (message : string) :
  respects R (handle_message m message).
Proof.
  unfold handle_message.
  destruct (prefix _ _); [| apply respects_ret].
  destruct (nonempty _); [| apply respects_ret].
  apply respects_try_catch; [| intros e; apply respects_emit].
  apply respects_bind; [apply respects_parse |]. intros v.
  destruct (_ || _); [apply respects_emit |].
  destruct (truthy _).
  - apply respects_bind; [apply respects_emit | intros _; apply respects_throw].
  - destruct (is_undefined (get v "result")); cbn [negb]; apply respects_emit.
Qed.

Lemma respects_read_loop (m : option string) (pending : list string)
    (ending : option Thrown) (buffer : string) :
  respects R (read_loop m pending ending buffer).
Proof.
  revert buffer. induction pending as [|value later IH]; intros buffer; simpl.
  - destruct ending; [apply respects_throw |].
    destruct (nonempty _); [apply respects_emit | apply respects_ret].
  - apply respects_bind; [| intros _; apply IH].
    apply respects_for_each. intros x. apply respects_handle_message.
Qed.

Lemma respects_handleStreamingResponse (response : Response) (m : option string) :
  respects R (_handleStreamingResponse response m).
Proof.
  unfold _handleStreamingResponse.
  destruct (if ok response then body response else None) as [stream|].
  - apply respects_try_finally.
    + apply respects_try_catch; [apply respects_read_loop |].
      intros e. apply respects_bind; [apply respects_emit | intros _; apply respects_throw].
    + apply respects_bind; [apply respects_emit | intros _; apply respects_emit].
  - apply respects_bind; [apply respects_attempt, respects_text |].
    intros read. apply respects_bind; [apply respects_emit | intros _; apply respects_throw].
Qed.

End Respect.

(** ** The unary response decoder *)

Section Unary.

Context {World : Type} {platform : Platform World}.

(** The decoders leave the state as it is. *)
Lemma _handleJsonResponse_final (response : Response) (m : option string)
    (st : State World) :
  final (_handleJsonResponse response m st) = st.
Proof.
  symmetry. apply (respects_handleJsonResponse eq); congruence.
Qed.

Lemma _handleStreamingResponse_final (response : Response) (m : option string)
    (st : State World) :
  final (_handleStreamingResponse response m st) = st.
Proof.
  symmetry. apply (respects_handleStreamingResponse eq); congruence.
Qed.

Lemma text_delivers (response : Response) (parts : list string) (st : State World) :
  delivers response parts -> shows (text response) st [] (String.concat "" parts).
Proof. intros [_ Hbody]. unfold shows, text. now rewrite Hbody. Qed.

(** The amended C2.  A response with a success status whose body is a
    tagged envelope with neither a [result] nor an [error] member
    decodes to [null]: nothing is raised and nothing is reported. *)
Theorem envelope_without_result_decodes_to_null (response : Response)
    (parts : list string) (fields : list (string * JSValue))
    (expectedMethod : option string) (st : State World) :
  delivers response parts ->
  JSON_parse (String.concat "" parts) = Some (VObj fields) ->
  lookup "jsonrpc" fields = Some (VStr "2.0") ->
  lookup "result" fields = None ->
  lookup "error" fields = None ->
  shows (_handleJsonResponse response expectedMethod) st [] VNull.
Proof.
  intros Hresp Hparse Htag Hres Herr.
  pose proof (text_delivers st Hresp) as Htext. destruct Hresp as [Hok _].
  unfold shows in *. unfold _handleJsonResponse, bind, attempt, try_catch.
  rewrite Htext. cbn [events outcome final]. rewrite Hok. cbn [negb].
  unfold parse. rewrite Hparse. simpl. now rewrite Htag, Herr, Hres.
Qed.

(** The decoder on an envelope with an [error] member: the [throw] of
    line 137 stands inside the [try], so what it throws goes through
    the handler of line 145. *)
Lemma _handleJsonResponse_peer_error (response : Response)
    (parts : list string) (fields : list (string * JSValue)) (e : JSValue)
    (expectedMethod : option string) (st : State World) :
  delivers response parts ->
  JSON_parse (String.concat "" parts) = Some (VObj fields) ->
  lookup "jsonrpc" fields = Some (VStr "2.0") ->
  lookup "error" fields = Some e ->
  truthy e = true ->
  outcome (_handleJsonResponse response expectedMethod st)
  = outcome (on_response_error (A := JSValue) expectedMethod (Some (String.concat "" parts))
               (new_RpcError (get e "code") (get e "message") (Data (get e "data"))) st).
Proof.
  intros Hresp Hparse Htag Herr Htruthy.
  pose proof (text_delivers st Hresp) as Htext. destruct Hresp as [Hok _].
  unfold shows in Htext. unfold _handleJsonResponse, bind, attempt, try_catch.
  rewrite Htext. cbn [events outcome final]. rewrite Hok. cbn [negb].
  unfold parse. rewrite Hparse. simpl. rewrite Htag, Herr. simpl.
  rewrite Htruthy. reflexivity.
Qed.


(** Where the [message] of the [error] member has no conversion to a
    string (an object with a member named [toString]), the constructor
    of [RpcError] throws a [TypeError] inside the [try], and the decoder
    raises the local fault that wraps it. *)
Lemma peer_error_without_message_text (response : Response)
    (parts : list string) (fields : list (string * JSValue)) (e : JSValue)
    (expectedMethod : option string) (st : State World) :
  delivers response parts ->
  JSON_parse (String.concat "" parts) = Some (VObj fields) ->
  lookup "jsonrpc" fields = Some (VStr "2.0") ->
  lookup "error" fields = Some e ->
  truthy e = true ->
  Error_text (get e "message") = None ->
  let line := ToPrimitive_message (get e "message") in
  outcome (_handleJsonResponse response expectedMethod st)
  = inl (RpcError INTERNAL_ERROR ("Failed to process response: " ++ line)
           (Cause (Error line))).
Proof.
  intros Hresp Hparse Htag Herr Htruthy Hm. cbv zeta.
  rewrite (_handleJsonResponse_peer_error expectedMethod st
             Hresp Hparse Htag Herr Htruthy).
  unfold new_RpcError. rewrite Hm. reflexivity.
Qed.

(** Under a status outside 200-299 the decoder never looks at the
    body again after the inner [catch]: whatever the body says, it
    raises the local fault made from the status line and the body. *)
Lemma http_failure_raises_internal_error (response : Response)
    (parts : list string) (expectedMethod : option string) (st : State World) :
  ok response = false ->
  body response = Some {| chunks := parts; failure := None |} ->
  let responseBody := String.concat "" parts in
  let line := "HTTP error " ++ Z_to_string (status response) ++ ": "
              ++ statusText response
              ++ (if nonempty responseBody then " - " ++ responseBody else "") in
  outcome (_handleJsonResponse response expectedMethod st)
  = inl (RpcError INTERNAL_ERROR ("Failed to process response: " ++ line)
           (Cause (Error line))).
Proof.
  intros Hok Hbody. cbv zeta.
  unfold _handleJsonResponse, bind, attempt, try_catch, text.
  rewrite Hbody, Hok. cbn [failure chunks events outcome final negb].
  generalize (String.concat "" parts). intros responseBody.
  unfold parse, prop, ret, after. cbn [events outcome final].
  destruct (JSON_parse responseBody) as [v|]; [| reflexivity].
  cbn [events outcome final].
  destruct (is_nullish v); [reflexivity |]. cbn [events outcome final].
  destruct (truthy (get v "error")); reflexivity.
Qed.

End Unary.

(** ** The agent card *)

Section AgentCard.

Context {World : Type} {platform : Platform World}.

Lemma same_client_refl (s : State World) : same_client s s.
Proof. reflexivity. Qed.

Lemma same_client_trans (a b c : State World) :
  same_client a b -> same_client b c -> same_client a c.
Proof. unfold same_client. congruence. Qed.

Lemma keeps_client_generateRequestId : respects same_client _generateRequestId.
Proof.
  intros st. unfold _generateRequestId, bind, engine, same_client.
  destruct crypto_randomUUID as [randomUUID|]; simpl.
  - now destruct (randomUUID (world st)).
  - now destruct (Date_now (world st)).
Qed.

Lemma keeps_client_fetch (req : Request) : respects same_client (fetch req).
Proof.
  intros st. unfold fetch, same_client. now destruct (fetchImpl req (world st)).
Qed.

(** Takes a program apart along its binds and handlers. *)
Ltac keeps_client :=
  pose proof same_client_refl; pose proof same_client_trans;
  repeat first [ assumption
               | apply keeps_client_fetch
               | apply keeps_client_generateRequestId
               | apply respects_serialise
               | apply respects_handleJsonResponse
               | apply respects_handleStreamingResponse
               | apply respects_for_await
               | apply respects_bind
               | apply respects_try_catch
               | apply respects_ret
               | apply respects_throw
               | apply respects_emit
               | progress intros ].

Lemma keeps_client_makeHttpRequest (method : string) (params : JSValue) (accept : string) :
  respects same_client (_makeHttpRequest method params accept).
Proof. unfold _makeHttpRequest. keeps_client. Qed.

Lemma keeps_client_unary_call (method : string) (params : JSValue) :
  respects same_client (unary_call method params).
Proof. unfold unary_call, _makeHttpRequest. keeps_client. Qed.

Lemma keeps_client_streamGenerator (method : string) (params : JSValue) :
  respects same_client (streamGenerator method params).
Proof.
  unfold streamGenerator, _makeHttpRequest. keeps_client.
  destruct (_ && _); keeps_client.
Qed.

(** With a card in the cache, [agentCard] answers from the cache. *)
Lemma agentCard_cached (st : State World) :
  truthy (cachedAgentCard (this st)) = true ->
  shows agentCard st [] (cachedAgentCard (this st)).
Proof.
  intros H. unfold shows, agentCard, bind, read_this. cbn [events outcome final].
  rewrite H. reflexivity.
Qed.

(** With a card in the cache, [supports] leaves the state as it is. *)
Lemma supports_cached (capability : string) (st : State World) :
  truthy (cachedAgentCard (this st)) = true ->
  final (supports capability st) = st.
Proof.
  intros H. pose proof (agentCard_cached st H) as Hcard. unfold shows in Hcard.
  unfold supports, try_catch, bind. rewrite Hcard. cbn [events outcome final].
  generalize (cachedAgentCard (this st)). intros card. unfold prop, ret, throw, after.
  destruct (capability =? "streaming")%string;
    [| destruct (capability =? "pushNotifications")%string];
    try (destruct (is_nullish card)); reflexivity.
Qed.

(** A card in the cache stays there, whatever the client is asked. *)
Lemma perform_keeps_card (c : Call) (st : State World) :
  truthy (cachedAgentCard (this st)) = true ->
  this (perform c st) = this st.
Proof.
  intros H. destruct c; unfold perform.
  - pose proof (agentCard_cached st H) as Hcard. unfold shows in Hcard. now rewrite Hcard.
  - now rewrite supports_cached.
  - symmetry. apply keeps_client_unary_call.
  - symmetry. apply keeps_client_unary_call.
  - symmetry. apply keeps_client_unary_call.
  - symmetry. apply keeps_client_unary_call.
  - symmetry. apply keeps_client_unary_call.
  - symmetry. apply keeps_client_streamGenerator.
  - symmetry. apply keeps_client_streamGenerator.
Qed.

Lemma perform_all_keeps_card (calls : list Call) (st : State World) :
  truthy (cachedAgentCard (this st)) = true ->
  this (perform_all calls st) = this st.
Proof.
  revert st. induction calls as [|c calls IH]; intros st H; [reflexivity |].
  change (perform_all (c :: calls) st) with (perform_all calls (perform c st)).
  pose proof (perform_keeps_card c st H) as Hc.
  rewrite IH; [exact Hc | now rewrite Hc].
Qed.

Lemma json_final (response : Response) (st : State World) :
  final (json response st) = st.
Proof.
  assert (H : respects eq (json response)).
  { unfold json. apply respects_bind; try (intros; congruence).
    - apply respects_text; congruence.
    - intros t. apply respects_parse; congruence. }
  symmetry. apply H.
Qed.

(** A first call that succeeds has stored what it returns, and has
    called [fetchImpl] once. *)
Lemma agentCard_first (st : State World) (card : JSValue) :
  truthy (cachedAgentCard (this st)) = false ->
  outcome (agentCard st) = inr card ->
  cachedAgentCard (this (final (agentCard st))) = card
  /\ fetched (final (agentCard st))
     = (fetched st ++ [{| url := baseUrl (this st) ++ "/agent-card";
                          http_method := "GET";
                          headers := [("Accept", "application/json")];
                          request_body := None |}])%list.
Proof.
  intros Hempty. unfold agentCard. rewrite bind_run.
  change (read_this st) with {| events := []; outcome := inr (this st); final := st |}.
  cbn [events outcome final]. rewrite Hempty, after_nil, try_catch_run, bind_run.
  set (req := {| url := baseUrl (this st) ++ "/agent-card"; http_method := "GET";
                 headers := [("Accept", "application/json")]; request_body := None |}).
  assert (Hfetch : this (final (fetch req st)) = this st
                   /\ fetched (final (fetch req st)) = (fetched st ++ [req])%list).
  { unfold fetch. now destruct (fetchImpl req (world st)). }
  destruct Hfetch as [Hthis Hfetched].
  destruct (fetch req st) as [evs [e | response] s]; cbn [events outcome final] in *.
  { unfold after, bind, console, emit, throw. cbn [events outcome final]. discriminate. }
  destruct (negb (ok response)).
  { unfold after, bind, console, emit, throw. cbn [events outcome final]. discriminate. }
  rewrite bind_run. pose proof (json_final response s) as Hjson.
  destruct (json response s) as [evs' [e | v] s']; cbn [events outcome final] in *.
  { unfold after, bind, console, emit, throw. cbn [events outcome final]. discriminate. }
  subst s'. unfold write_cachedAgentCard, read_this, bind, ret, after.
  cbn [events outcome final this cachedAgentCard fetched].
  intros [= <-]. split; [reflexivity | exact Hfetched].
Qed.

(** C8.  Once a call of [agentCard] has succeeded with a card (an
    object, or any other value that counts as true), every later call
    of [agentCard] on that client, whatever the client was asked in
    between, returns that same card, calls [fetchImpl] not at all and
    leaves the state as it is; on a client whose cache was empty, the
    first call and a second one hand exactly one request to
    [fetchImpl], the GET of the card. *)
Theorem agentCard_is_fetched_once (st : State World) (card : JSValue) :
  outcome (agentCard st) = inr card ->
  truthy card = true ->
  let st1 := final (agentCard st) in
  (forall calls, shows agentCard (perform_all calls st1) [] card)
  /\ (truthy (cachedAgentCard (this st)) = false ->
      let both := bind agentCard (fun _ => agentCard) st in
      outcome both = inr card
      /\ fetched (final both)
         = (fetched st ++ [{| url := baseUrl (this st) ++ "/agent-card";
                              http_method := "GET";
                              headers := [("Accept", "application/json")];
                              request_body := None |}])%list).
Proof.
  intros Hfirst Htruthy st1.
  assert (Hstored : cachedAgentCard (this st1) = card).
  { destruct (truthy (cachedAgentCard (this st))) eqn:Hc.
    - pose proof (agentCard_cached st Hc) as Hrun. unfold shows in Hrun.
      subst st1. rewrite Hrun in *. cbn [final outcome] in *. congruence.
    - now apply agentCard_first. }
  split.
  - intros calls.
    assert (Hkeep : cachedAgentCard (this (perform_all calls st1)) = card).
    { rewrite perform_all_keeps_card; [exact Hstored | now rewrite Hstored]. }
    rewrite <- Hkeep. apply agentCard_cached. now rewrite Hkeep.
  - intros Hempty both.
    destruct (agentCard_first st Hempty Hfirst) as [_ Hfetched].
    assert (Hsecond : shows agentCard st1 [] card).
    { rewrite <- Hstored. apply agentCard_cached. now rewrite Hstored. }
    unfold shows in Hsecond. subst both. unfold bind. rewrite Hfirst.
    fold st1. rewrite Hsecond. cbn [after events outcome final]. split; [reflexivity |].
    exact Hfetched.
Qed.

(** What [supports] returns, by the end of [agentCard]. *)
Lemma supports_outcome (capability : string) (st : State World) :
  outcome (supports capability st)
  = inr match outcome (agentCard st) with
        | inl _ => false
        | inr card =>
            if (capability =? "streaming")%string
            then capability_flag card "streaming"
            else if (capability =? "pushNotifications")%string
                 then capability_flag card "pushNotifications"
                 else false
        end.
Proof.
  unfold supports, try_catch, bind.
  destruct (agentCard st) as [evs [e | card] s]; cbn [events outcome final];
    [reflexivity |].
  unfold capability_flag, prop, optional_get, console, emit, ret, throw, after.
  destruct (capability =? "streaming")%string;
    [| destruct (capability =? "pushNotifications")%string; [| reflexivity]].
  - destruct card; cbn [is_nullish events outcome final]; try reflexivity.
    cbn [get]. destruct (lookup "capabilities" fields) as [[]|]; reflexivity.
  - destruct card; cbn [is_nullish events outcome final]; try reflexivity.
    cbn [get]. destruct (lookup "capabilities" fields) as [[]|]; reflexivity.
Qed.

(** C9.  [supports] ends normally on every argument: with [false]
    when [agentCard] raises, and, when [agentCard] returns a card, with
    the boolean value of the flag of a declared capability on that
    card ([false] for any other argument). *)
Theorem supports_never_raises (capability : string) (st : State World) :
  (exists b, outcome (supports capability st) = inr b)
  /\ (forall e, outcome (agentCard st) = inl e ->
                outcome (supports capability st) = inr false)
  /\ (forall card, outcome (agentCard st) = inr card ->
        (capability = "streaming" \/ capability = "pushNotifications" ->
         outcome (supports capability st) = inr (capability_flag card capability))
        /\ (capability <> "streaming" -> capability <> "pushNotifications" ->
            outcome (supports capability st) = inr false)).
Proof.
  pose proof (supports_outcome capability st) as H.
  split; [eexists; exact H | split].
  - intros e He. now rewrite H, He.
  - intros card Hcard. rewrite H, Hcard. split.
    + intros [-> | ->]; reflexivity.
    + intros Hs Hp.
      destruct (String.eqb_spec capability "streaming"); [contradiction |].
      destruct (String.eqb_spec capability "pushNotifications"); [contradiction |].
      reflexivity.
Qed.

End AgentCard.

(** ** The client on sample traffic *)

Section Concrete.

Import Samples.

#[local] Existing Instance Scripted.platform.

(** The unary example of the protocol: [getTask] returns the task. *)
Example getTask_returns_the_result :
  outcome (getTask task_query
             (online [Scripted.reply 200 "OK" [task_envelope]]))
  = inr (VObj [("id", VStr "t1"); ("status", VStr "done")]).
Proof. vm_compute. reflexivity. Qed.

(** A delimiter cut in two by the chunking, and Windows line ends. *)
Example chunked_inside_the_delimiter :
  yields (events (_handleStreamingResponse
                    (Scripted.reply 200 "OK" [working ++ "~"; "~" ++ completed ++ "~~"])
                    (Some "tasks/sendSubscribe") offline))
  = [state_working; state_completed].
Proof. vm_compute. reflexivity. Qed.

(** The text after the data prefix runs to the end of the frame: a
    field line after the data line makes the payload unreadable. *)
Example later_line_joins_the_payload :
  yields (events (_handleStreamingResponse (Scripted.reply 200 "OK" [with_id_line ++ "~~"])
                    (Some "tasks/sendSubscribe") offline))
  = [].
Proof. vm_compute. reflexivity. Qed.

(** C1, on the code.  The stream of the protocol's own example, a
    result frame and then an error frame, followed by one more result
    frame: the decoder yields both results and ends normally; the
    error of the second frame is never raised. *)
Theorem error_frame_does_not_end_the_stream :
  yields (events (_handleStreamingResponse stream_with_error
                    (Some "tasks/sendSubscribe") offline))
  = [state_working; state_completed]
  /\ outcome (_handleStreamingResponse stream_with_error
                (Some "tasks/sendSubscribe") offline)
     = inr tt.
Proof. split; vm_compute; reflexivity. Qed.

(** C3, on the code.  Status 500 with a body that carries the error
    -32001 of the peer: the decoder raises the local fault -32603 made
    from the status line and the body, not the error of the peer. *)
Theorem peer_error_under_http_failure_is_replaced :
  outcome (_handleJsonResponse
             (Scripted.reply 500 "Internal Server Error" [not_found_envelope])
             (Some "tasks/get") offline)
  = inl (RpcError (VNum (-32603)) ("Failed to process response: " ++ failure_line)
           (Cause (Error failure_line))).
Proof. vm_compute. reflexivity. Qed.

(** C2 does not hold: the envelope of a success response with neither
    [result] nor [error] decodes to [null]; no fault is raised. *)
Lemma envelope_without_result_raises_nothing :
  ok (Scripted.reply 200 "OK" [empty_envelope]) = true
  /\ Json.json_parse (Json.wire empty_envelope)
     = Some (VObj [("jsonrpc", VStr "2.0"); ("id", VStr "abc")])
  /\ _handleJsonResponse (Scripted.reply 200 "OK" [empty_envelope])
       (Some "tasks/get") offline
     = {| events := []; outcome := inr VNull; final := offline |}
  /\ ~ (exists msg d,
          outcome (_handleJsonResponse (Scripted.reply 200 "OK" [empty_envelope])
                     (Some "tasks/get") offline)
          = inl (RpcError INTERNAL_ERROR msg d)).
Proof.
  split; [| split; [| split]]; try (vm_compute; reflexivity).
  intros (msg & d & H). vm_compute in H. discriminate.
Qed.

(** C5 does not hold: a complete frame whose second line is a data
    line with a valid envelope is ignored; the decoder neither yields
    its result nor reports it. *)
Lemma data_line_after_event_line_is_ignored :
  Json.wire with_event_line = (Json.wire "event: update~" ++ Json.wire working)%string
  /\ carries_result (Json.wire working) state_working
  /\ handle_message (Some "tasks/sendSubscribe") (Json.wire with_event_line) offline
     = {| events := []; outcome := inr tt; final := offline |}
  /\ yields (events (_handleStreamingResponse stream_with_event_line
                       (Some "tasks/sendSubscribe") offline))
     = [].
Proof.
  split; [| split; [| split]]; try (vm_compute; reflexivity).
  exists [("jsonrpc", VStr "2.0"); ("id", VStr "x"); ("result", state_working)].
  split; [split; [| split] | split; [| split; [| split]]];
    try (vm_compute; reflexivity).
  discriminate.
Qed.

Lemma working_carries_result :
  carries_result (Json.wire working) state_working.
Proof.
  exists [("jsonrpc", VStr "2.0"); ("id", VStr "x"); ("result", state_working)].
  split; [split; [| split] | split; [| split; [| split]]];
    try (vm_compute; reflexivity).
  discriminate.
Qed.

Lemma completed_carries_result :
  carries_result (Json.wire completed) state_completed.
Proof.
  exists [("jsonrpc", VStr "2.0"); ("id", VStr "x"); ("result", state_completed)].
  split; [split; [| split] | split; [| split; [| split]]];
    try (vm_compute; reflexivity).
  discriminate.
Qed.

Lemma nothing_carries_null :
  carries_result (Json.wire nothing) VNull.
Proof.
  exists [("jsonrpc", VStr "2.0"); ("id", VStr "x"); ("result", VNull)].
  split; [split; [| split] | split; [| split; [| split]]];
    try (vm_compute; reflexivity).
  discriminate.
Qed.

Lemma truncated_is_malformed : malformed (Json.wire truncated).
Proof.
  split; [| split]; [vm_compute; reflexivity | vm_compute; reflexivity |].
  left. vm_compute. reflexivity.
Qed.

(** The amended C2 on the envelope without result. *)
Lemma envelope_without_result_witness :
  shows (_handleJsonResponse
           (Scripted.reply 200 "OK" [empty_envelope]) (Some "tasks/get"))
    offline [] VNull.
Proof.
  apply (envelope_without_result_decodes_to_null
           (parts := [Json.wire empty_envelope])
           (fields := [("jsonrpc", VStr "2.0"); ("id", VStr "abc")])).
  - split; reflexivity.
  - vm_compute. reflexivity.
  - reflexivity.
  - reflexivity.
  - reflexivity.
Defined.

(** The amended C5 on a data frame and on a frame with an event line
    first. *)
Lemma frame_is_read_from_its_data_prefix_witness :
  shows (handle_message None (Json.wire working))
    offline [Yield state_working] tt
  /\ shows (handle_message None (Json.wire with_event_line))
       offline [] tt.
Proof.
  destruct (frame_is_read_from_its_data_prefix
              None (Json.wire working) offline) as [Hresult _].
  destruct (frame_is_read_from_its_data_prefix
              None (Json.wire with_event_line) offline) as [_ [_ Hother]].
  split.
  - apply Hresult. exact working_carries_result.
  - apply Hother. vm_compute. reflexivity.
Defined.

(** C6 on three frames, the second cut short, in two chunks. *)
Lemma one_malformed_frame_is_skipped_witness :
  yields (events (_handleStreamingResponse stream_with_truncated
                    (Some "tasks/sendSubscribe") offline))
  = [state_working; state_completed]
  /\ outcome (_handleStreamingResponse stream_with_truncated
                (Some "tasks/sendSubscribe") offline)
     = inr tt
  /\ exists args,
       In (Console LevelError args)
          (events (_handleStreamingResponse stream_with_truncated
                     (Some "tasks/sendSubscribe") offline)).
Proof.
  apply (one_malformed_frame_is_skipped
           (response := stream_with_truncated)
           (parts := map Json.wire [working ++ "~~" ++ truncated ++ "~";
                                    "~" ++ completed ++ "~~"])
           (before := [Json.wire working]) (bad := Json.wire truncated)
           (later := [Json.wire completed])
           (rs1 := [state_working]) (rs2 := [state_completed])).
  - split; reflexivity.
  - vm_compute. reflexivity.
  - repeat constructor.
  - constructor; [exact working_carries_result | constructor].
  - exact truncated_is_malformed.
  - constructor; [exact completed_carries_result | constructor].
Defined.


(** C8 on a client that fetches its card, sends a task and asks for
    the card again. *)
Lemma agentCard_is_fetched_once_witness :
  shows agentCard
    (perform_all [CallSendTask task_query]
       (final (agentCard (online [Scripted.reply 200 "OK" [card];
                                  Scripted.reply 200 "OK" [task_envelope]]))))
    [] card_value
  /\ length (fetched (final (bind agentCard (fun _ => agentCard)
                               (online [Scripted.reply 200 "OK" [card];
                                        Scripted.reply 200 "OK" [task_envelope]]))))
     = 1%nat.
Proof.
  assert (Hfirst : outcome (agentCard (online [Scripted.reply 200 "OK" [card];
                                               Scripted.reply 200 "OK" [task_envelope]]))
                   = inr card_value)
    by (vm_compute; reflexivity).
  destruct (agentCard_is_fetched_once _ Hfirst eq_refl) as [Hlater Htwice].
  split.
  - apply Hlater.
  - destruct (Htwice eq_refl) as [_ Hfetched]. rewrite Hfetched. reflexivity.
Defined.

(** C9 on a client without network and on one that gets its card. *)
Lemma supports_never_raises_witness :
  outcome (supports "streaming" offline) = inr false
  /\ outcome (supports "streaming"
                (online [Scripted.reply 200 "OK" [card]]))
     = inr true.
Proof.
  split.
  - refine (proj1 (proj2 (supports_never_raises
                            "streaming" offline)) _ _).
    vm_compute. reflexivity.
  - refine (proj1 (proj2 (proj2 (supports_never_raises
                                   "streaming" (online [Scripted.reply 200 "OK" [card]])))
                     card_value _) _).
    + vm_compute. reflexivity.
    + left. reflexivity.
Defined.

(** C10 on a stream of a result, a [null] result and a result. *)
Lemma streaming_methods_yield_no_null_witness :
  yields (events (_handleStreamingResponse stream_with_null
                    (Some "tasks/sendSubscribe") offline))
  = [state_working; VNull; state_completed]
  /\ yields (events (sendTaskSubscribe task_query (online [stream_with_null])))
     = [state_working; state_completed].
Proof.
  destruct (streaming_methods_yield_no_null task_query (online [stream_with_null]))
    as [_ [_ Hnull]].
  destruct (Hnull "tasks/sendSubscribe" stream_with_null
              (map Json.wire [working ++ "~~" ++ nothing ++ "~~"; completed ++ "~~"])
              [Json.wire working; Json.wire nothing; Json.wire completed]
              [state_working; VNull; state_completed]) as [Hinner Houter].
  - vm_compute. reflexivity.
  - split; reflexivity.
  - vm_compute. reflexivity.
  - repeat constructor.
  - repeat constructor;
      [exact working_carries_result | exact nothing_carries_null
       | exact completed_carries_result].
  - split; [apply Hinner | exact Houter].
Defined.

End Concrete.

(** * More properties *)

(** ** More of the unary response decoder *)

Section MoreUnary.

Context {World : Type} {platform : Platform World}.

Lemma outcome_after {A} (evs : list Event) (r : Run World A) :
  outcome (after evs r) = outcome r.
Proof. reflexivity. Qed.

(** The handler of the decoder reports the error and raises it, as it
    is when it is an [RpcError], inside a local fault otherwise. *)
Lemma on_response_error_run {A} (m : option string) (b : option string) (e : Thrown)
    (st : State World) :
  exists report,
    on_response_error (A := A) m b e st
    = {| events := [Console LevelError report];
         outcome := inl (if is_RpcError e then e
                         else RpcError INTERNAL_ERROR
                                ("Failed to process response: " ++ message_of e)
                                (Cause e));
         final := st |}.
Proof.
  unfold on_response_error, bind, console, emit, throw, after.
  cbn [events outcome final]. destruct (is_RpcError e); eexists; reflexivity.
Qed.

Lemma on_response_error_is_RpcError {A} (m : option string) (b : option string)
    (e e' : Thrown) (st : State World) :
  outcome (on_response_error (A := A) m b e st) = inl e' -> is_RpcError e' = true.
Proof.
  destruct (on_response_error_run (A := A) m b e st) as [report ->].
  cbn [outcome]. intros [= <-]. now destruct (is_RpcError e) eqn:He.
Qed.

(** Both ways out of the decoder with an error lead through its
    handler. *)
Lemma _handleJsonResponse_raises (response : Response)
    (expectedMethod : option string) (st : State World) (e : Thrown) :
  outcome (_handleJsonResponse response expectedMethod st) = inl e ->
  is_RpcError e = true.
Proof.
  unfold _handleJsonResponse. rewrite bind_run. unfold attempt.
  cbn [events outcome final].
  destruct (text response st) as [evs [err | responseBody] s]; cbn [events outcome final];
    rewrite outcome_after.
  - apply on_response_error_is_RpcError.
  - match goal with |- context [try_catch ?m _ _] => set (inner := m) end.
    rewrite try_catch_run.
    destruct (inner s) as [evs' [err | v] s']; cbn [events outcome final].
    + rewrite outcome_after. apply on_response_error_is_RpcError.
    + discriminate.
Qed.

(** X1.  Whatever the response, whatever goes wrong with it, what the
    unary decoder raises is an [RpcError]. *)
Theorem unary_decoder_raises_only_RpcError (response : Response)
    (expectedMethod : option string) (st : State World) (e : Thrown) :
  outcome (_handleJsonResponse response expectedMethod st) = inl e ->
  is_RpcError e = true.
Proof. apply _handleJsonResponse_raises. Qed.

(** The test of lines 125-129 lets through the tagged envelopes and
    nothing else. *)
Lemma envelope_test_tagged (fields : list (string * JSValue)) :
  lookup "jsonrpc" fields = Some (VStr "2.0") ->
  negb (typeof_object (VObj fields)) || is_null (VObj fields)
  || negb (strict_eq_string (get (VObj fields) "jsonrpc") "2.0") = false.
Proof. intros H. cbn. now rewrite H. Qed.

Lemma envelope_test_untagged (v : JSValue) :
  ~ tagged v ->
  negb (typeof_object v) || is_null v
  || negb (strict_eq_string (get v "jsonrpc") "2.0") = true.
Proof.
  intros Hv. destruct v as [| | b | n | s | items | fields]; try reflexivity.
  cbn. destruct (lookup "jsonrpc" fields) as [tag|] eqn:Etag; [| reflexivity].
  destruct tag as [| | b | n | s | items | fs]; try reflexivity.
  cbn. destruct (String.eqb_spec s "2.0") as [-> | Hs]; [| reflexivity].
  destruct Hv. exists fields. split; [reflexivity | exact Etag].
Qed.

(** X2.  A success response whose body is a tagged envelope without an
    [error] that counts as true decodes to the [result] member of the
    envelope, to [null] when that member is missing or [null]; nothing
    is reported and the state stays as it is. *)
Theorem unary_result_is_returned (response : Response) (parts : list string)
    (fields : list (string * JSValue)) (expectedMethod : option string)
    (st : State World) :
  delivers response parts ->
  JSON_parse (String.concat "" parts) = Some (VObj fields) ->
  lookup "jsonrpc" fields = Some (VStr "2.0") ->
  truthy (get (VObj fields) "error") = false ->
  shows (_handleJsonResponse response expectedMethod) st []
    (nullish_or (get (VObj fields) "result") VNull).
Proof.
  intros Hresp Hparse Htag Herr.
  pose proof (text_delivers st Hresp) as Htext. destruct Hresp as [Hok _].
  unfold shows in *. unfold _handleJsonResponse, bind, attempt, try_catch.
  rewrite Htext. cbn [events outcome final]. rewrite Hok. cbn [negb].
  unfold parse. rewrite Hparse. unfold ret, after. cbn [events outcome final].
  rewrite (envelope_test_tagged _ Htag), Herr. reflexivity.
Qed.

(** X3.  A success response whose body is a JSON text but no tagged
    envelope (no object, or an object without the version tag "2.0")
    makes the decoder raise the local fault -32603, "Invalid JSON-RPC
    response structure received from server.", without data. *)
Theorem untagged_body_is_a_fault (response : Response) (parts : list string)
    (v : JSValue) (expectedMethod : option string) (st : State World) :
  delivers response parts ->
  JSON_parse (String.concat "" parts) = Some v ->
  ~ tagged v ->
  outcome (_handleJsonResponse response expectedMethod st)
  = inl (RpcError INTERNAL_ERROR
           "Invalid JSON-RPC response structure received from server."
           (Data VUndefined)).
Proof.
  intros Hresp Hparse Hv.
  pose proof (text_delivers st Hresp) as Htext. destruct Hresp as [Hok _].
  unfold shows in *. unfold _handleJsonResponse, bind, attempt, try_catch.
  rewrite Htext. cbn [events outcome final]. rewrite Hok. cbn [negb].
  unfold parse. rewrite Hparse. unfold ret, after. cbn [events outcome final].
  rewrite (envelope_test_untagged Hv). reflexivity.
Qed.

(** X4.  A success response whose body is no JSON text makes the
    decoder raise the local fault -32603 whose message is "Failed to
    process response: " and the message of the [SyntaxError], and whose
    data is that [SyntaxError]. *)
Theorem unparsable_body_is_a_fault (response : Response) (parts : list string)
    (expectedMethod : option string) (st : State World) :
  delivers response parts ->
  JSON_parse (String.concat "" parts) = None ->
  outcome (_handleJsonResponse response expectedMethod st)
  = inl (RpcError INTERNAL_ERROR
           ("Failed to process response: "
            ++ SyntaxError_message (String.concat "" parts))
           (Cause (Error (SyntaxError_message (String.concat "" parts))))).
Proof.
  intros Hresp Hparse.
  pose proof (text_delivers st Hresp) as Htext. destruct Hresp as [Hok _].
  unfold shows in *. unfold _handleJsonResponse, bind, attempt, try_catch.
  rewrite Htext. cbn [events outcome final]. rewrite Hok. cbn [negb].
  unfold parse. rewrite Hparse. reflexivity.
Qed.

(** X5.  When the body cannot be read, whatever the status: an
    [RpcError] thrown by the read is raised as it is, every other error
    is raised inside the local fault -32603, as its data and with its
    message after "Failed to process response: ". *)
Theorem unreadable_body_is_a_fault (response : Response) (parts : list string)
    (e : Thrown) (expectedMethod : option string) (st : State World) :
  body response = Some {| chunks := parts; failure := Some e |} ->
  outcome (_handleJsonResponse response expectedMethod st)
  = inl (if is_RpcError e then e
         else RpcError INTERNAL_ERROR
                ("Failed to process response: " ++ message_of e) (Cause e)).
Proof.
  intros Hbody. unfold _handleJsonResponse. rewrite bind_run. unfold attempt, text.
  rewrite Hbody. cbn [failure events outcome final throw]. rewrite outcome_after.
  destruct (on_response_error_run (A := JSValue) expectedMethod None e st) as [report ->].
  reflexivity.
Qed.

End MoreUnary.

(** ** Requests *)

Section Requests.

Context {World : Type} {platform : Platform World}.

(** The id of a request: it is made without a failure and without
    console output, and it is a string or a number. *)
Lemma _generateRequestId_run (st : State World) :
  exists id w,
    _generateRequestId st
    = {| events := []; outcome := inr id;
         final := {| this := this st; world := w; fetched := fetched st |} |}
    /\ string_or_number id
    /\ (crypto_randomUUID = None -> id = VNum (fst (Date_now (world st)))).
Proof.
  unfold _generateRequestId, bind, engine, ret, after, string_or_number.
  destruct crypto_randomUUID as [randomUUID|].
  - destruct (randomUUID (world st)) as [uuid w]. cbn [events outcome final app].
    exists (VStr uuid), w. split; [reflexivity | split; [left; now eexists | discriminate]].
  - destruct (Date_now (world st)) as [now w]. cbn [events outcome final app fst].
    exists (VNum now), w. split; [reflexivity | split; [right; now eexists | reflexivity]].
Qed.

(** A request as a whole: one id is made and the envelope is
    serialised; where that throws, nothing is handed to [fetchImpl] and
    the error is raised inside the local fault -32603; otherwise one
    POST of the text is handed to [fetchImpl] and the call ends as
    [fetchImpl] ends, its error inside the local fault. *)
Lemma _makeHttpRequest_run (method : string) (params : JSValue) (accept : string)
    (st : State World) :
  exists id w,
    _generateRequestId st
    = {| events := []; outcome := inr id;
         final := {| this := this st; world := w; fetched := fetched st |} |}
    /\ string_or_number id
    /\ match JSON_stringify (envelope method id params) with
       | inl e =>
           _makeHttpRequest method params accept st
           = {| events := network_report e;
                outcome := inl (network_fault e);
                final := {| this := this st; world := w; fetched := fetched st |} |}
       | inr content =>
           exists answer w',
             fetchImpl (post (baseUrl (this st)) accept content) w = (answer, w')
             /\ _makeHttpRequest method params accept st
                = {| events := match answer with
                               | inl e => network_report e
                               | inr _ => []
                               end;
                     outcome := match answer with
                                | inl e => inl (network_fault e)
                                | inr response => inr response
                                end;
                     final := {| this := this st; world := w';
                                 fetched := (fetched st
                                             ++ [post (baseUrl (this st)) accept content])%list
                              |} |}
       end.
Proof.
  destruct (_generateRequestId_run st) as (id & w & Hid & Hshape & _).
  exists id, w. split; [exact Hid | split; [exact Hshape |]].
  unfold _makeHttpRequest. rewrite bind_run, Hid. cbn [events outcome final].
  rewrite after_nil, try_catch_run, bind_run.
  change (read_this ?s) with {| events := []; outcome := inr (this s); final := s |}.
  cbn [events outcome final this]. rewrite after_nil, bind_run.
  unfold serialise. fold (envelope method id params).
  destruct (JSON_stringify (envelope method id params)) as [e | content].
  - reflexivity.
  - destruct (fetchImpl (post (baseUrl (this st)) accept content) w)
      as [answer w'] eqn:Hfetch.
    exists answer, w'. split; [reflexivity |].
    assert (Hf : fetch (post (baseUrl (this st)) accept content)
                   {| this := this st; world := w; fetched := fetched st |}
                 = {| events := []; outcome := answer;
                      final := {| this := this st; world := w';
                                  fetched := (fetched st
                                              ++ [post (baseUrl (this st)) accept content])%list
                               |} |}).
    { unfold fetch. cbn [world this fetched]. now rewrite Hfetch. }
    unfold ret. cbn [events outcome final]. rewrite after_nil, bind_run.
    unfold post in Hf. rewrite Hf. cbn [events outcome final].
    destruct answer as [e | response]; reflexivity.
Qed.

(** The same, by what the callers of a request need: how it ends, and
    the state it leaves. *)
Lemma _makeHttpRequest_end (method : string) (params : JSValue) (accept : string)
    (st : State World) :
  exists id answer s,
    outcome (_generateRequestId st) = inr id
    /\ string_or_number id
    /\ _makeHttpRequest method params accept st
       = {| events := match answer with
                      | inl e => network_report e
                      | inr _ => []
                      end;
            outcome := match answer with
                       | inl e => inl (network_fault e)
                       | inr response => inr response
                       end;
            final := s |}
    /\ this s = this st
    /\ fetched s
       = (fetched st ++ requested (baseUrl (this st)) accept method id params)%list
    /\ (forall e, JSON_stringify (envelope method id params) = inl e -> answer = inl e).
Proof.
  destruct (_makeHttpRequest_run method params accept st) as (id & w & Hid & Hshape & Hrun).
  unfold requested.
  destruct (JSON_stringify (envelope method id params)) as [e | content] eqn:Htext.
  - exists id, (inl e). eexists. rewrite Hid, Htext.
    split; [reflexivity | split; [exact Hshape |]].
    split; [exact Hrun |]. cbn [this fetched]. rewrite app_nil_r.
    split; [reflexivity | split; [reflexivity |]]. now intros e' [= <-].
  - destruct Hrun as (answer & w' & _ & Hrun).
    exists id, answer. eexists. rewrite Hid, Htext.
    split; [reflexivity | split; [exact Hshape |]].
    split; [exact Hrun |]. split; [reflexivity | split; [reflexivity | discriminate]].
Qed.

Lemma requested_length (base accept method : string) (id params : JSValue) :
  (length (requested base accept method id params) <= 1)%nat.
Proof. unfold requested. destruct (JSON_stringify _); cbn; lia. Qed.

(** X6.  A request hands at most one POST to [fetchImpl]: none where
    [JSON.stringify] throws on the envelope, and otherwise exactly one,
    whether it is answered or not: to the base URL, with the content
    type [application/json] and the given [Accept], its body the JSON
    text of the envelope of the method and the parameters, tagged "2.0"
    and with the id that the call made for it, a string or a number; the
    client instance stays as it is. *)
Theorem request_is_at_most_one_post (method : string) (params : JSValue) (accept : string)
    (st : State World) :
  exists id,
    outcome (_generateRequestId st) = inr id
    /\ string_or_number id
    /\ fetched (final (_makeHttpRequest method params accept st))
       = (fetched st
          ++ match JSON_stringify (envelope method id params) with
             | inr content => [post (baseUrl (this st)) accept content]
             | inl _ => []
             end)%list
    /\ this (final (_makeHttpRequest method params accept st)) = this st.
Proof.
  destruct (_makeHttpRequest_end method params accept st)
    as (id & answer & s & Hid & Hshape & -> & Hthis & Hfetched & _).
  exists id. cbn [final]. unfold requested in Hfetched. now repeat split.
Qed.

(** X7.  A request ends as the serialisation and [fetchImpl] end.
    Where [JSON.stringify] throws [e] on the envelope, and where
    [fetchImpl], called with the POST of the serialised envelope in the
    world that the making of the id left, throws [e], the request raises
    the local fault -32603 whose message is "Network error: " and the
    message of [e] and whose data is [e], after one report of [e] on the
    console; where [fetchImpl] answers, the request returns that
    response and shows nothing.  The world is left as the last of these
    calls left it. *)
Theorem network_error_is_a_fault (method : string) (params : JSValue) (accept : string)
    (st : State World) :
  exists id w,
    _generateRequestId st
    = {| events := []; outcome := inr id;
         final := {| this := this st; world := w; fetched := fetched st |} |}
    /\ let run := _makeHttpRequest method params accept st in
       let fault e := RpcError INTERNAL_ERROR ("Network error: " ++ message_of e) (Cause e) in
       let report e := [Console LevelError [Text "Network error during RPC call:"; Err e]] in
       match JSON_stringify (envelope method id params) with
       | inl e =>
           events run = report e /\ outcome run = inl (fault e) /\ world (final run) = w
       | inr content =>
           match fetchImpl (post (baseUrl (this st)) accept content) w with
           | (inl e, w') =>
               events run = report e /\ outcome run = inl (fault e)
               /\ world (final run) = w'
           | (inr response, w') =>
               events run = [] /\ outcome run = inr response /\ world (final run) = w'
           end
       end.
Proof.
  destruct (_makeHttpRequest_run method params accept st) as (id & w & Hid & _ & Hrun).
  exists id, w. split; [exact Hid |]. cbv zeta.
  destruct (JSON_stringify (envelope method id params)) as [e | content].
  - rewrite Hrun. now repeat split.
  - destruct Hrun as (answer & w' & -> & ->).
    destruct answer as [e | response]; now repeat split.
Qed.

(** X8.  On an engine without [crypto.randomUUID] the id is the reading
    of the clock: two requests made while the clock reads the same
    millisecond are made with the same id, and what they hand to
    [fetchImpl] carries it. *)
Theorem fallback_ids_repeat (method1 method2 : string) (params1 params2 : JSValue)
    (accept1 accept2 : string) (st st' : State World) :
  crypto_randomUUID = None ->
  fst (Date_now (world st)) = fst (Date_now (world st')) ->
  exists id,
    outcome (_generateRequestId st) = inr id
    /\ outcome (_generateRequestId st') = inr id
    /\ fetched (final (_makeHttpRequest method1 params1 accept1 st))
       = (fetched st
          ++ requested (baseUrl (this st)) accept1 method1 id params1)%list
    /\ fetched (final (_makeHttpRequest method2 params2 accept2 st'))
       = (fetched st'
          ++ requested (baseUrl (this st')) accept2 method2 id params2)%list.
Proof.
  intros Hcrypto Hclock.
  destruct (_makeHttpRequest_end method1 params1 accept1 st)
    as (id1 & answer1 & s1 & Hid1 & _ & -> & _ & Hf1 & _).
  destruct (_makeHttpRequest_end method2 params2 accept2 st')
    as (id2 & answer2 & s2 & Hid2 & _ & -> & _ & Hf2 & _).
  destruct (_generateRequestId_run st) as (i1 & v1 & Hi1 & _ & Hnow1).
  destruct (_generateRequestId_run st') as (i2 & v2 & Hi2 & _ & Hnow2).
  rewrite Hi1 in Hid1. rewrite Hi2 in Hid2. cbn [outcome] in Hid1, Hid2.
  injection Hid1 as Hid1. injection Hid2 as Hid2.
  specialize (Hnow1 Hcrypto). specialize (Hnow2 Hcrypto). rewrite <- Hclock in Hnow2.
  assert (Hsame1 : id1 = VNum (fst (Date_now (world st)))) by congruence.
  assert (Hsame2 : id2 = VNum (fst (Date_now (world st)))) by congruence.
  rewrite Hsame1 in Hf1. rewrite Hsame2 in Hf2.
  exists (VNum (fst (Date_now (world st)))). cbn [final]. rewrite Hi1, Hi2. cbn [outcome].
  split; [congruence | split; [congruence | split; assumption]].
Qed.

End Requests.

(** ** More of the streaming frame decoder *)

Section MoreStreaming.

Context {World : Type} {platform : Platform World}.

Variable expectedMethod : option string.

(** The run of the decoder on a stream that was opened, told by the
    whole text: the complete frames are handled in order, then the read
    ends or fails, then the reader is released. *)
Lemma stream_run (response : Response) (parts : list string) (ending : option Thrown)
    (st : State World) :
  ok response = true ->
  body response = Some {| chunks := parts; failure := ending |} ->
  _handleStreamingResponse response expectedMethod st
  = {| events :=
         events (for_each (handle_message expectedMethod)
                   (popped (split_blank (remove_cr (String.concat "" parts)))) st)
         ++ closing_events expectedMethod ending
              (pop_or_empty (split_blank (remove_cr (String.concat "" parts))));
       outcome := match ending with
                  | Some e => inl e
                  | None => inr tt
                  end;
       final := st |}.
Proof.
  intros Hok Hbody.
  unfold _handleStreamingResponse. rewrite Hok, Hbody. cbn [chunks failure].
  unfold try_finally, try_catch.
  rewrite (read_loop_whole expectedMethod parts ending (buffer := "") st eq_refl eq_refl).
  cbn [append].
  destruct (for_each_total expectedMethod
              (popped (split_blank (remove_cr (String.concat "" parts)))) st)
    as [evs Hevs].
  unfold shows in Hevs. unfold bind. rewrite Hevs. cbn [events outcome final].
  unfold closing_events, read_loop.
  destruct ending as [e |].
  - unfold throw, console, emit, after. cbn [events outcome final].
    rewrite !app_nil_r, <- !app_assoc. reflexivity.
  - destruct (nonempty (trim _)); unfold ret, console, emit, after;
      cbn [events outcome final]; rewrite ?app_nil_r, <- ?app_assoc; reflexivity.
Qed.

(** X9.  A response that cannot be opened as a stream, because its
    status is outside 200-299 or because it has no body, makes the
    decoder raise a plain [Error], no [RpcError], with the status line and
    "Failed to establish stream."; no item is yielded, no reader is taken
    and the failure is reported once. *)
Theorem unopened_stream_raises_plain_error (response : Response) (st : State World) :
  ok response = false \/ body response = None ->
  outcome (_handleStreamingResponse response expectedMethod st)
  = inl (Error (stream_refusal response))
  /\ yields (events (_handleStreamingResponse response expectedMethod st)) = []
  /\ ~ In ReleaseLock (events (_handleStreamingResponse response expectedMethod st))
  /\ exists report,
       events (_handleStreamingResponse response expectedMethod st)
       = [Console LevelError report].
Proof.
  intros Hclosed.
  assert (Hnone : (if ok response then body response else None) = None).
  { destruct Hclosed as [-> | ->]; [reflexivity | now destruct (ok response)]. }
  unfold _handleStreamingResponse. rewrite Hnone.
  rewrite bind_run. unfold attempt. cbn [events outcome final].
  assert (Htext : events (text response st) = []).
  { unfold text. destruct (body response) as [stream|]; [| reflexivity].
    destruct (failure stream); reflexivity. }
  rewrite Htext. unfold bind, console, emit, throw, after.
  cbn [events outcome final app].
  repeat split.
  - intros [H | []]. discriminate.
  - eexists. reflexivity.
Qed.

(** X10.  When a read of the stream fails, the items of the frames
    that were complete by then have been yielded as on a stream that ends
    there; then the error of the read is raised as it is, and the reader
    is released. *)
Theorem read_failure_is_raised_after_the_items (code : Z) (reason : string)
    (parts : list string) (e : Thrown) (st : State World) :
  (200 <=? code) && (code <=? 299) = true ->
  outcome (_handleStreamingResponse
             {| status := code; statusText := reason;
                body := Some {| chunks := parts; failure := Some e |} |}
             expectedMethod st)
  = inl e
  /\ yields (events (_handleStreamingResponse
                       {| status := code; statusText := reason;
                          body := Some {| chunks := parts; failure := Some e |} |}
                       expectedMethod st))
     = yields (events (_handleStreamingResponse
                         {| status := code; statusText := reason;
                            body := Some {| chunks := parts; failure := None |} |}
                         expectedMethod st))
  /\ In ReleaseLock
       (events (_handleStreamingResponse
                  {| status := code; statusText := reason;
                     body := Some {| chunks := parts; failure := Some e |} |}
                  expectedMethod st)).
Proof.
  intros Hok.
  rewrite (stream_run (mkResponse code reason (Some (mkStream parts (Some e))))
             st Hok eq_refl).
  rewrite (stream_run (mkResponse code reason (Some (mkStream parts None)))
             st Hok eq_refl).
  cbn [events outcome]. split; [reflexivity | split].
  - rewrite !yields_app. f_equal. unfold closing_events.
    destruct (nonempty _); reflexivity.
  - apply in_or_app. right. unfold closing_events. apply in_or_app. right. now left.
Qed.

(** The frames of a stream, then a text without blank line. *)
Lemma split_blank_stream_rest (frames : list string) (rest : string) :
  Forall (fun f => frame_body f = true) frames ->
  split_blank (stream_text frames ++ rest) = (frames ++ split_blank rest)%list.
Proof.
  induction 1 as [|f frames Hf _ IH]; [reflexivity |].
  change (stream_text (f :: frames) ++ rest)
    with ((f ++ blank_line ++ stream_text frames) ++ rest).
  rewrite append_assoc.
  change ((blank_line ++ stream_text frames) ++ rest)
    with (blank_line ++ (stream_text frames ++ rest)).
  rewrite split_blank_frame by exact Hf. now rewrite IH.
Qed.

(** X11.  What follows the last blank line of a stream is never
    decoded, not even when it is a whole data line: the stream yields the
    items of its complete frames and ends normally, and the text left
    over is reported with a warning unless it is white space. *)
Theorem unterminated_frame_is_dropped (response : Response) (parts frames : list string)
    (rest : string) (st : State World) :
  delivers response parts ->
  remove_cr (String.concat "" parts) = stream_text frames ++ rest ->
  Forall (fun f => frame_body f = true) frames ->
  split_blank rest = [rest] ->
  events (_handleStreamingResponse response expectedMethod st)
  = (events (for_each (handle_message expectedMethod) frames st)
     ++ closing_events expectedMethod None rest)%list
  /\ outcome (_handleStreamingResponse response expectedMethod st) = inr tt.
Proof.
  intros [Hok Hbody] Htext Hframes Hrest.
  rewrite (stream_run response st Hok Hbody), Htext.
  rewrite split_blank_stream_rest by exact Hframes. rewrite Hrest.
  rewrite popped_app, pop_app by discriminate. cbn [popped removelast pop_or_empty last].
  rewrite app_nil_r. split; reflexivity.
Qed.

Lemma for_each_yields (frames : list string) (st : State World) :
  yields (events (for_each (handle_message expectedMethod) frames st))
  = concat (map (fun f => yields (events (handle_message expectedMethod f st))) frames).
Proof.
  induction frames as [|f frames IH]; [reflexivity |].
  cbn [for_each map concat]. rewrite bind_run.
  destruct (handle_message_total expectedMethod f st) as [evs Hevs].
  unfold shows in Hevs. rewrite Hevs. cbn [events outcome final].
  unfold after. cbn [events]. now rewrite yields_app, IH.
Qed.

(** X12.  The items of a stream of frames are the items of its frames,
    frame by frame and in the order of arrival: no frame changes what
    another one yields. *)
Theorem items_come_frame_by_frame (response : Response) (parts frames : list string)
    (st : State World) :
  delivers response parts ->
  remove_cr (String.concat "" parts) = stream_text frames ->
  Forall (fun f => frame_body f = true) frames ->
  yields (events (_handleStreamingResponse response expectedMethod st))
  = concat (map (fun f => yields (events (handle_message expectedMethod f st))) frames).
Proof.
  intros Hresp Htext Hframes.
  rewrite (stream_of_frames expectedMethod st Hresp Htext Hframes).
  unfold after. cbn [events]. rewrite yields_app. cbn [yields].
  now rewrite app_nil_r, for_each_yields.
Qed.

(** X13.  Carriage returns count for nothing, wherever they stand in
    the stream: the decoder runs on a stream that was opened as on the
    same text without them. *)
Theorem carriage_returns_do_not_matter (code : Z) (reason : string)
    (parts : list string) (ending : option Thrown) (st : State World) :
  (200 <=? code) && (code <=? 299) = true ->
  _handleStreamingResponse
    {| status := code; statusText := reason;
       body := Some {| chunks := parts; failure := ending |} |} expectedMethod st
  = _handleStreamingResponse
      {| status := code; statusText := reason;
         body := Some {| chunks := [remove_cr (String.concat "" parts)];
                         failure := ending |} |}
      expectedMethod st.
Proof.
  intros Hok.
  rewrite (stream_run (mkResponse code reason (Some (mkStream parts ending)))
             st Hok eq_refl).
  rewrite (stream_run
             (mkResponse code reason
                (Some (mkStream [remove_cr (String.concat "" parts)] ending)))
             st Hok eq_refl).
  cbn [String.concat].
  now rewrite (remove_cr_cr_free _ (cr_free_remove_cr (String.concat "" parts))).
Qed.

Lemma handle_message_silent (message : string) (st : State World) :
  silent message -> shows (handle_message expectedMethod message) st [] tt.
Proof.
  intros [Hp | He]; [now apply handle_message_other |].
  unfold shows, handle_message. fold (payload message). rewrite He.
  now destruct (prefix "data: " message).
Qed.

(** X14.  A stream of frames without data (comment lines, other
    fields, a data prefix with nothing but white space after it) yields
    nothing, raises nothing and reports nothing but its end. *)
Theorem frames_without_data_are_silent (response : Response) (parts frames : list string)
    (st : State World) :
  delivers response parts ->
  remove_cr (String.concat "" parts) = stream_text frames ->
  Forall (fun f => frame_body f = true) frames ->
  Forall silent frames ->
  _handleStreamingResponse response expectedMethod st
  = {| events := closing_events expectedMethod None "";
       outcome := inr tt; final := st |}.
Proof.
  intros Hresp Htext Hframes Hsilent.
  rewrite (stream_of_frames expectedMethod st Hresp Htext Hframes).
  assert (Hrun : shows (for_each (handle_message expectedMethod) frames) st [] tt).
  { clear Htext Hframes. induction Hsilent as [|f frames Hf _ IH]; [reflexivity |].
    cbn [for_each]. change (@nil Event) with ((@nil Event) ++ [])%list.
    eapply shows_bind; [now apply handle_message_silent | exact IH]. }
  unfold shows in Hrun. rewrite Hrun. reflexivity.
Qed.

End MoreStreaming.

(** ** More of the agent card *)

Section MoreAgentCard.

Context {World : Type} {platform : Platform World}.

(** What a call of [agentCard] returns is in the cache afterwards. *)
Lemma agentCard_stores (st : State World) (card : JSValue) :
  outcome (agentCard st) = inr card ->
  cachedAgentCard (this (final (agentCard st))) = card.
Proof.
  intros Hcard. destruct (truthy (cachedAgentCard (this st))) eqn:Hc.
  - pose proof (agentCard_cached st Hc) as Hrun. unfold shows in Hrun.
    rewrite Hrun in *. cbn [final outcome] in *. congruence.
  - now apply agentCard_first.
Qed.

(** A failing call of [agentCard], by the place where it fails: the
    fetch, the status, the reading or the parsing of the body. *)
Lemma agentCard_failure (st : State World) (err : Thrown) :
  outcome (agentCard st) = inl err ->
  (exists e, err = RpcError INTERNAL_ERROR
                     ("Could not retrieve agent card: " ++ message_of e) (Cause e))
  /\ this (final (agentCard st)) = this st
  /\ truthy (cachedAgentCard (this (final (agentCard st)))) = false
  /\ fetched (final (agentCard st))
     = (fetched st ++ [get_card (baseUrl (this st))])%list.
Proof.
  destruct (truthy (cachedAgentCard (this st))) eqn:Hempty.
  { pose proof (agentCard_cached st Hempty) as Hrun. unfold shows in Hrun.
    rewrite Hrun. discriminate. }
  unfold agentCard. rewrite bind_run.
  change (read_this st) with {| events := []; outcome := inr (this st); final := st |}.
  cbn [events outcome final]. rewrite Hempty, after_nil, try_catch_run, bind_run.
  fold (get_card (baseUrl (this st))).
  assert (Hfetch : this (final (fetch (get_card (baseUrl (this st))) st)) = this st
                   /\ fetched (final (fetch (get_card (baseUrl (this st))) st))
                      = (fetched st ++ [get_card (baseUrl (this st))])%list).
  { unfold fetch. now destruct (fetchImpl _ (world st)). }
  destruct Hfetch as [Hthis Hfetched].
  destruct (fetch (get_card (baseUrl (this st))) st) as [evs [e | response] s];
    cbn [events outcome final] in *.
  { unfold bind, console, emit, throw, new_RpcError, after.
    cbn [events outcome final is_undefined ToString].
    intros [= <-]. rewrite Hthis, Hempty. repeat split; [now exists e | exact Hfetched]. }
  destruct (negb (ok response)).
  { unfold bind, console, emit, throw, new_RpcError, after.
    cbn [events outcome final is_undefined ToString].
    intros [= <-]. rewrite Hthis, Hempty.
    repeat split; [| exact Hfetched].
    match goal with |- exists _, RpcError _ _ (Cause ?c) = _ => now exists c end. }
  rewrite bind_run. pose proof (json_final response s) as Hjson.
  destruct (json response s) as [evs' [e | v] s']; cbn [events outcome final] in *.
  { subst s'. unfold bind, console, emit, throw, new_RpcError, after.
    cbn [events outcome final is_undefined ToString].
    intros [= <-]. rewrite Hthis, Hempty. repeat split; [now exists e | exact Hfetched]. }
  unfold write_cachedAgentCard, read_this, bind, ret, after.
  cbn [events outcome final]. discriminate.
Qed.


(** [supports] changes the state as its call of [agentCard] does. *)
Lemma supports_final (capability : string) (st : State World) :
  final (supports capability st) = final (agentCard st).
Proof.
  unfold supports. rewrite try_catch_run, bind_run.
  destruct (agentCard st) as [evs [e | card] s]; cbn [events outcome final].
  - reflexivity.
  - unfold prop, ret, throw, after, bind, console, emit.
    destruct (capability =? "streaming")%string;
      [| destruct (capability =? "pushNotifications")%string];
      try (destruct (is_nullish card)); reflexivity.
Qed.

(** X16.  [supports] fills the cache: where the card can be retrieved
    (an object, or any other value that counts as true), a call of
    [supports] leaves the client such that [agentCard] returns that card
    without a fetch, and such that a further [supports] changes
    nothing. *)
Theorem supports_fills_the_cache (capability later : string) (st : State World)
    (card : JSValue) :
  outcome (agentCard st) = inr card ->
  truthy card = true ->
  shows agentCard (final (supports capability st)) [] card
  /\ final (supports later (final (supports capability st)))
     = final (supports capability st).
Proof.
  intros Hcard Htruthy. rewrite supports_final.
  pose proof (agentCard_stores st Hcard) as Hstored.
  assert (Hfull : truthy (cachedAgentCard (this (final (agentCard st)))) = true)
    by now rewrite Hstored.
  split.
  - rewrite <- Hstored. now apply agentCard_cached.
  - now apply supports_cached.
Qed.

End MoreAgentCard.

(** ** The public methods *)

Section MorePublic.

Context {World : Type} {platform : Platform World}.

(** Closes the part of a goal that tells what a call handed to
    [fetchImpl], from the end of its request. *)
Ltac on_the_wire id Hgen Hid Hfetched Hthrown :=
  exists id; split; [exact Hgen | split; [exact Hid |]];
  unfold requested in Hfetched;
  let e0 := fresh "e" in
  let Htext := fresh "Htext" in
  destruct (JSON_stringify _) as [e0 | ?] eqn:Htext;
  [ rewrite app_nil_r in Hfetched; split; [exact Hfetched |];
    specialize (Hthrown e0 eq_refl);
    first [discriminate Hthrown | injection Hthrown as ->; reflexivity]
  | exact Hfetched ].

(** A unary call: the request, then the decoding of its response. *)
Lemma unary_call_run (method : string) (params : JSValue) (st : State World) :
  (forall e, outcome (unary_call method params st) = inl e -> is_RpcError e = true)
  /\ (forall v, outcome (unary_call method params st) = inr v -> v <> VUndefined)
  /\ exists id,
       outcome (_generateRequestId st) = inr id
       /\ string_or_number id
       /\ match JSON_stringify (envelope method id params) with
          | inl e =>
              fetched (final (unary_call method params st)) = fetched st
              /\ outcome (unary_call method params st) = inl (network_fault e)
          | inr content =>
              fetched (final (unary_call method params st))
              = (fetched st ++ [post (baseUrl (this st)) "application/json" content])%list
          end.
Proof.
  unfold unary_call. rewrite bind_run.
  destruct (_makeHttpRequest_end method params "application/json" st)
    as (id & answer & s & Hgen & Hid & -> & _ & Hfetched & Hthrown).
  cbn [events outcome final].
  destruct answer as [e | response].
  - repeat split; try discriminate.
    + now intros e' [= <-].
    + on_the_wire id Hgen Hid Hfetched Hthrown.
  - rewrite bind_run.
    match goal with |- context [_handleJsonResponse response ?m ?s] =>
      pose proof (_handleJsonResponse_final response m s) as Hfinal;
      pose proof (@_handleJsonResponse_raises _ _ response m s) as Hraise;
      destruct (_handleJsonResponse response m s) as [evs [e | result] s'];
      cbn [events outcome final] in *; subst s'
    end.
    + repeat split; try discriminate.
      * intros e' [= <-]. now apply Hraise.
      * on_the_wire id Hgen Hid Hfetched Hthrown.
    + unfold ret, after. cbn [events outcome final]. repeat split; try discriminate.
      * intros v [= <-]. now destruct result.
      * on_the_wire id Hgen Hid Hfetched Hthrown.
Qed.

(** X17.  Each of the five unary methods raises nothing but
    [RpcError]s and returns a value or [null], never [undefined]. *)
Theorem unary_methods_raise_only_RpcError :
  Forall (fun entry : (JSValue -> Prog World JSValue) * string =>
            forall params st,
              (forall e, outcome (fst entry params st) = inl e -> is_RpcError e = true)
              /\ (forall v, outcome (fst entry params st) = inr v -> v <> VUndefined))
    unary_methods.
Proof.
  unfold unary_methods.
  repeat (apply Forall_cons;
          [intros params st; cbn [fst snd]; split;
           [exact (proj1 (unary_call_run _ params st))
           | exact (proj1 (proj2 (unary_call_run _ params st)))] |]).
  apply Forall_nil.
Qed.

(** X18.  Each of the five unary methods hands at most one request to
    [fetchImpl].  Where [JSON.stringify] throws on the envelope it
    hands none, and raises the local fault -32603 that wraps what was
    thrown; otherwise it hands exactly one, answered or not: the POST
    of the envelope that carries its parameters and its own method name,
    with the id that the call made for it, a string or a number,
    accepting [application/json]. *)
Theorem unary_methods_on_the_wire :
  Forall (fun entry : (JSValue -> Prog World JSValue) * string =>
            forall params st,
            exists id,
              outcome (_generateRequestId st) = inr id
              /\ string_or_number id
              /\ match JSON_stringify (envelope (snd entry) id params) with
                 | inl e =>
                     fetched (final (fst entry params st)) = fetched st
                     /\ outcome (fst entry params st)
                        = inl (RpcError INTERNAL_ERROR
                                 ("Network error: " ++ message_of e) (Cause e))
                 | inr content =>
                     fetched (final (fst entry params st))
                     = (fetched st
                        ++ [post (baseUrl (this st)) "application/json" content])%list
                 end)
    unary_methods.
Proof.
  unfold unary_methods.
  repeat (apply Forall_cons;
          [intros params st; cbn [fst snd];
           exact (proj2 (proj2 (unary_call_run _ params st))) |]).
  apply Forall_nil.
Qed.

(** A streaming call: the request, then the decoder behind the filter. *)
Lemma streamGenerator_run (method : string) (params : JSValue) (st : State World) :
  (exists id,
     outcome (_generateRequestId st) = inr id
     /\ string_or_number id
     /\ fetched (final (streamGenerator method params st))
        = (fetched st
           ++ requested (baseUrl (this st)) "text/event-stream" method id params)%list)
  /\ (forall err,
        outcome (_makeHttpRequest method params "text/event-stream" st) = inl err ->
        outcome (streamGenerator method params st) = inl err
        /\ yields (events (streamGenerator method params st)) = [])
  /\ (forall response,
        outcome (_makeHttpRequest method params "text/event-stream" st) = inr response ->
        outcome (streamGenerator method params st)
        = outcome (_handleStreamingResponse response (Some method)
                     (final (_makeHttpRequest method params "text/event-stream" st)))).
Proof.
  pose proof (streamGenerator_yields method params st) as Hyields. cbv zeta in Hyields.
  revert Hyields. unfold streamGenerator. rewrite bind_run.
  destruct (_makeHttpRequest_end method params "text/event-stream" st)
    as (id & answer & s & Hgen & Hid & -> & _ & Hfetched & _).
  cbn [events outcome final].
  destruct answer as [e | response]; intros Hyields.
  - split; [exists id; now repeat split | split].
    + intros err [= <-]. split; [reflexivity | exact Hyields].
    + discriminate.
  - unfold for_await.
    match goal with |- context [_handleStreamingResponse response ?m ?s] =>
      pose proof (_handleStreamingResponse_final response m s) as Hfinal;
      set (inner := _handleStreamingResponse response m s) in *
    end.
    destruct (replay_filters (events inner) (final inner)) as (out & Hrun & _).
    cbv zeta in Hrun. unfold shows in Hrun. rewrite Hrun. cbn [events outcome final].
    unfold after. cbn [events outcome final]. rewrite Hfinal.
    split; [exists id; now repeat split | split].
    + discriminate.
    + now intros r [= <-].
Qed.

(** X19.  Each of the two streaming methods hands at most one request
    to [fetchImpl]: none where [JSON.stringify] throws on the envelope,
    and otherwise exactly one, the POST of its envelope accepting
    [text/event-stream].  When the request fails, the method raises that
    fault and yields nothing; when it is answered, the method ends as the
    frame decoder ends on the response. *)
Theorem streaming_methods_on_the_wire :
  Forall (fun entry : (JSValue -> Prog World unit) * string =>
            forall params st,
              (exists id,
                 outcome (_generateRequestId st) = inr id
                 /\ string_or_number id
                 /\ fetched (final (fst entry params st))
                    = (fetched st
                       ++ match JSON_stringify (envelope (snd entry) id params) with
                          | inr content =>
                              [post (baseUrl (this st)) "text/event-stream" content]
                          | inl _ => []
                          end)%list)
              /\ (forall err,
                    outcome (_makeHttpRequest (snd entry) params "text/event-stream" st)
                    = inl err ->
                    outcome (fst entry params st) = inl err
                    /\ yields (events (fst entry params st)) = [])
              /\ (forall response,
                    outcome (_makeHttpRequest (snd entry) params "text/event-stream" st)
                    = inr response ->
                    outcome (fst entry params st)
                    = outcome (_handleStreamingResponse response (Some (snd entry))
                                 (final (_makeHttpRequest (snd entry) params
                                           "text/event-stream" st)))))
    streaming_methods.
Proof.
  unfold streaming_methods.
  repeat (apply Forall_cons;
          [intros params st; cbn [fst snd]; exact (streamGenerator_run _ params st) |]).
  apply Forall_nil.
Qed.

End MorePublic.

(** ** The constructors *)

(** X20.  The constructor of the client drops one slash at the end of
    the base URL and nothing else: a base with and without that slash
    give the same client, and a base that ends otherwise is kept. *)
Theorem constructor_drops_one_final_slash (base : string) :
  new_HttpClient (base ++ "/") = {| baseUrl := base; cachedAgentCard := VNull |}
  /\ (forall c, Ascii.eqb c "/" = false ->
                new_HttpClient (base ++ String c "")
                = {| baseUrl := base ++ String c ""; cachedAgentCard := VNull |})
  /\ new_HttpClient "" = {| baseUrl := ""; cachedAgentCard := VNull |}.
Proof.
  unfold new_HttpClient. split; [| split; [| reflexivity]].
  - f_equal. induction base as [|c base IH]; [reflexivity |].
    cbn [append strip_final_slash]. rewrite IH.
    now destruct base.
  - intros c Hc. f_equal. induction base as [|d base IH].
    + cbn. now rewrite Hc.
    + cbn [append strip_final_slash]. rewrite IH. now destruct base.
Qed.

(** X21.  The constructor of the server fails, with "taskStore is
    required", exactly when it is given no task store.  Otherwise it
    keeps the store and the card, and keeps [cors] and [basePath]
    whenever they are given, [false] and the empty string included; only
    when they are missing or [null] do they become [true] and "/": a
    server has always both. *)
Theorem server_constructor_defaults (TaskStore : Type)
    (given : option (A2AServerOptions.t TaskStore)) :
  (A2AServer.constructor given = inl (Error "taskStore is required")
   <-> (given = None
        \/ exists o, given = Some o /\ A2AServerOptions.taskStore o = None))
  /\ (forall server, A2AServer.constructor given = inr server ->
        exists o,
          given = Some o
          /\ A2AServerOptions.taskStore o = Some (A2AServer.taskStore server)
          /\ A2AServer.card server = A2AServerOptions.card o
          /\ A2AServer.cors server
             = (if is_nullish (A2AServerOptions.cors o) then VBool true
                else A2AServerOptions.cors o)
          /\ A2AServer.basePath server
             = (if is_nullish (A2AServerOptions.basePath o) then VStr "/"
                else A2AServerOptions.basePath o)
          /\ is_nullish (A2AServer.cors server) = false
          /\ is_nullish (A2AServer.basePath server) = false).
Proof.
  unfold A2AServer.constructor. split.
  - split.
    + destruct given as [o |]; [| now left].
      destruct (A2AServerOptions.taskStore o) eqn:Hstore; [discriminate |].
      intros _. right. now exists o.
    + intros [-> | (o & -> & Hstore)]; [reflexivity | now rewrite Hstore].
  - intros server. destruct given as [o |]; [| discriminate].
    destruct (A2AServerOptions.taskStore o) as [store |] eqn:Hstore; [| discriminate].
    intros [= <-]. exists o. cbn. unfold nullish_or.
    repeat split; try assumption.
    + now destruct (is_nullish (A2AServerOptions.cors o)) eqn:E.
    + now destruct (is_nullish (A2AServerOptions.basePath o)) eqn:E.
Qed.

(** ** What no call does *)

Section Invariants.

Context {World : Type} {platform : Platform World}.

(** X22.  The two decoders work on the response alone: they leave the
    client and the world as they are and hand nothing to [fetchImpl],
    whatever the response and however they end. *)
Theorem decoders_leave_the_state (response : Response) (expectedMethod : option string)
    (st : State World) :
  final (_handleJsonResponse response expectedMethod st) = st
  /\ final (_handleStreamingResponse response expectedMethod st) = st.
Proof.
  split; [apply _handleJsonResponse_final | apply _handleStreamingResponse_final].
Qed.

Lemma same_base_refl (s : State World) : same_base s s.
Proof. reflexivity. Qed.

Lemma same_base_trans (a b c : State World) :
  same_base a b -> same_base b c -> same_base a c.
Proof. unfold same_base. congruence. Qed.

Lemma same_client_same_base {A} (m : Prog World A) :
  respects same_client m -> respects same_base m.
Proof. intros H st. unfold same_base. now rewrite <- (H st). Qed.

Lemma same_base_write (card : JSValue) :
  respects (@same_base World) (write_cachedAgentCard card).
Proof. intros st. reflexivity. Qed.

Lemma same_base_agentCard : respects (@same_base World) agentCard.
Proof.
  pose proof same_base_refl as Hr. pose proof same_base_trans as Ht.
  unfold agentCard. apply respects_bind; try assumption. intros self.
  destruct (truthy (cachedAgentCard self)); [now apply respects_ret |].
  apply respects_try_catch; try assumption.
  - apply respects_bind; try assumption;
      [apply same_client_same_base, keeps_client_fetch |].
    intros response. destruct (negb (ok response)); [now apply respects_throw |].
    unfold json.
    repeat first [ assumption
                 | apply same_base_write
                 | apply respects_text
                 | apply respects_parse
                 | apply respects_bind
                 | apply respects_ret
                 | progress intros ].
  - intros e.
    repeat first [ assumption
                 | apply respects_bind
                 | apply respects_throw
                 | apply respects_emit
                 | progress intros ].
Qed.

(** X23.  The base URL of a client never changes: whatever the client
    is asked, in whatever order and with whatever result, it goes on
    talking to the base it was built with. *)
Theorem base_url_is_fixed (calls : list Call) (st : State World) :
  baseUrl (this (perform_all calls st)) = baseUrl (this st).
Proof.
  revert st. induction calls as [|c calls IH]; intros st; [reflexivity |].
  change (perform_all (c :: calls) st) with (perform_all calls (perform c st)).
  rewrite IH. symmetry. destruct c; unfold perform.
  - apply same_base_agentCard.
  - rewrite supports_final. apply same_base_agentCard.
  - apply same_client_same_base, keeps_client_unary_call.
  - apply same_client_same_base, keeps_client_unary_call.
  - apply same_client_same_base, keeps_client_unary_call.
  - apply same_client_same_base, keeps_client_unary_call.
  - apply same_client_same_base, keeps_client_unary_call.
  - apply same_client_same_base, keeps_client_streamGenerator.
  - apply same_client_same_base, keeps_client_streamGenerator.
Qed.

(** [agentCard] hands the GET of the card to [fetchImpl] when the cache
    is empty, and nothing otherwise. *)
Lemma agentCard_fetched (st : State World) :
  fetched (final (agentCard st))
  = (fetched st
     ++ (if truthy (cachedAgentCard (this st)) then []
         else [get_card (baseUrl (this st))]))%list.
Proof.
  destruct (truthy (cachedAgentCard (this st))) eqn:Hc.
  - pose proof (agentCard_cached st Hc) as Hrun. unfold shows in Hrun.
    rewrite Hrun. cbn [final]. now rewrite app_nil_r.
  - destruct (outcome (agentCard st)) as [err | card] eqn:Hend.
    + now destruct (agentCard_failure st Hend) as (_ & _ & _ & ->).
    + now destruct (agentCard_first st Hc Hend) as [_ ->].
Qed.

(** X24.  No call retries and no call takes a request back: every
    public operation leaves the requests made so far in place and adds at
    most one.  A unary or a streaming method adds the POST of its
    envelope, under its own method name and with what it accepts, or
    nothing where [JSON.stringify] throws on that envelope; the two card
    operations add the GET of the card when the cache is empty and
    nothing otherwise. *)
Theorem every_call_fetches_at_most_once (c : Call) (st : State World) :
  exists added,
    fetched (perform c st) = (fetched st ++ added)%list
    /\ (length added <= 1)%nat
    /\ match on_the_wire c with
       | None =>
           added = if truthy (cachedAgentCard (this st)) then []
                   else [get_card (baseUrl (this st))]
       | Some (method, accept, params) =>
           exists id,
             outcome (_generateRequestId st) = inr id
             /\ added = match JSON_stringify (envelope method id params) with
                        | inr content => [post (baseUrl (this st)) accept content]
                        | inl _ => []
                        end
       end.
Proof.
  assert (Hcard : exists added,
            fetched (final (agentCard st)) = (fetched st ++ added)%list
            /\ (length added <= 1)%nat
            /\ added = if truthy (cachedAgentCard (this st)) then []
                       else [get_card (baseUrl (this st))]).
  { eexists. split; [apply agentCard_fetched | split; [| reflexivity]].
    destruct (truthy _); cbn; lia. }
  assert (Hunary : forall method params,
            exists added,
              fetched (final (unary_call method params st)) = (fetched st ++ added)%list
              /\ (length added <= 1)%nat
              /\ exists id,
                   outcome (_generateRequestId st) = inr id
                   /\ added = requested (baseUrl (this st)) "application/json"
                                method id params).
  { intros method params.
    destruct (unary_call_run method params st) as (_ & _ & id & Hid & _ & Hwire).
    exists (requested (baseUrl (this st)) "application/json" method id params).
    split; [| split; [apply requested_length | exists id; now split]].
    unfold requested. destruct (JSON_stringify _); [| exact Hwire].
    rewrite app_nil_r. apply Hwire. }
  assert (Hstream : forall method params,
            exists added,
              fetched (final (streamGenerator method params st)) = (fetched st ++ added)%list
              /\ (length added <= 1)%nat
              /\ exists id,
                   outcome (_generateRequestId st) = inr id
                   /\ added = requested (baseUrl (this st)) "text/event-stream"
                                method id params).
  { intros method params.
    destruct (streamGenerator_run method params st) as ((id & Hid & _ & ->) & _).
    eexists. split; [reflexivity | split; [apply requested_length |]].
    exists id. now split. }
  destruct c; unfold perform; cbn [on_the_wire];
    try apply Hunary; try apply Hstream.
  - exact Hcard.
  - rewrite supports_final. exact Hcard.
Qed.

End Invariants.

(** ** The further properties at work on sample traffic *)

Section MoreConcrete.

Import Samples.
Import MoreSamples.

#[local] Existing Instance Scripted.platform.

(** An error member whose [message] has no conversion to a string: the
    constructor of [RpcError] throws, and the decoder raises the local
    fault in place of the error of the peer. *)
Example peer_error_without_message_text_at_work :
  outcome (_handleJsonResponse (Scripted.reply 200 "OK" [unconvertible_envelope])
             (Some "tasks/get") offline)
  = inl (RpcError INTERNAL_ERROR
           "Failed to process response: Cannot convert object to primitive value"
           (Cause (Error "Cannot convert object to primitive value"))).
Proof. vm_compute. reflexivity. Qed.

(** A call whose parameters cannot be serialised: nothing is handed to
    [fetchImpl], and the fault is the one of a network error. *)
Example unserialisable_request_is_not_sent :
  outcome (getTask (platform := unserialisable) task_query
             (online [Scripted.reply 200 "OK" [task_envelope]]))
  = inl (RpcError INTERNAL_ERROR "Network error: Do not know how to serialize a BigInt"
           (Cause (Error "Do not know how to serialize a BigInt")))
  /\ fetched (final (getTask (platform := unserialisable) task_query
                       (online [Scripted.reply 200 "OK" [task_envelope]])))
     = []
  /\ events (sendTaskSubscribe (platform := unserialisable) task_query
               (online [Scripted.reply 200 "OK" [working ++ "~~"]]))
     = [Console LevelError
          [Text "Network error during RPC call:";
           Err (Error "Do not know how to serialize a BigInt")]].
Proof. vm_compute. tauto. Qed.

(** X1 on the status 500 of the samples. *)
Lemma unary_decoder_raises_only_RpcError_witness :
  is_RpcError (RpcError (VNum (-32603)) ("Failed to process response: " ++ failure_line)
                 (Cause (Error failure_line)))
  = true.
Proof.
  apply (unary_decoder_raises_only_RpcError
           (Scripted.reply 500 "Internal Server Error" [not_found_envelope])
           (Some "tasks/get") offline).
  vm_compute. reflexivity.
Defined.

(** X2 on the response of the protocol's example and on a [null]
    result. *)
Lemma unary_result_is_returned_witness :
  shows (_handleJsonResponse (Scripted.reply 200 "OK" [task_envelope]) (Some "tasks/get"))
    offline [] (VObj [("id", VStr "t1"); ("status", VStr "done")])
  /\ shows (_handleJsonResponse (Scripted.reply 200 "OK" [null_result_envelope])
              (Some "tasks/get"))
       offline [] VNull.
Proof.
  split.
  - apply (unary_result_is_returned
             (parts := [Json.wire task_envelope])
             (fields := [("jsonrpc", VStr "2.0"); ("id", VStr "abc");
                         ("result", VObj [("id", VStr "t1"); ("status", VStr "done")])])).
    + split; reflexivity.
    + vm_compute. reflexivity.
    + reflexivity.
    + reflexivity.
  - apply (unary_result_is_returned
             (parts := [Json.wire null_result_envelope])
             (fields := [("jsonrpc", VStr "2.0"); ("id", VStr "abc"); ("result", VNull)])).
    + split; reflexivity.
    + vm_compute. reflexivity.
    + reflexivity.
    + reflexivity.
Defined.

(** X3 on an envelope without the version tag. *)
Lemma untagged_body_is_a_fault_witness :
  outcome (_handleJsonResponse (Scripted.reply 200 "OK" [no_tag_envelope])
             (Some "tasks/get") offline)
  = inl (RpcError INTERNAL_ERROR
           "Invalid JSON-RPC response structure received from server."
           (Data VUndefined)).
Proof.
  apply (untagged_body_is_a_fault
           (parts := [Json.wire no_tag_envelope])
           (v := VObj [("id", VStr "abc"); ("result", VObj [("id", VStr "t1")])])).
  - split; reflexivity.
  - vm_compute. reflexivity.
  - intros (fields & Hv & Htag). injection Hv as <-. discriminate.
Defined.

(** X4 on a body cut short. *)
Lemma unparsable_body_is_a_fault_witness :
  outcome (_handleJsonResponse (Scripted.reply 200 "OK" ["{'jsonrpc':"])
             (Some "tasks/get") offline)
  = inl (RpcError INTERNAL_ERROR "Failed to process response: Unexpected token in JSON"
           (Cause (Error "Unexpected token in JSON"))).
Proof.
  assert (Hparse : JSON_parse (String.concat "" [Json.wire "{'jsonrpc':"]) = None)
    by (vm_compute; reflexivity).
  exact (unparsable_body_is_a_fault
           (response := Scripted.reply 200 "OK" ["{'jsonrpc':"])
           (Some "tasks/get") offline (conj eq_refl eq_refl) Hparse).
Defined.

(** X5 on a connection that is reset while the body arrives. *)
Lemma unreadable_body_is_a_fault_witness :
  outcome (_handleJsonResponse (broken 200 "OK" ["{'jsonrpc':"] connection_reset)
             (Some "tasks/get") offline)
  = inl (RpcError INTERNAL_ERROR "Failed to process response: connection reset"
           (Cause connection_reset)).
Proof.
  exact (unreadable_body_is_a_fault
           (broken 200 "OK" ["{'jsonrpc':"] connection_reset)
           (Some "tasks/get") offline eq_refl).
Defined.

(** X8 on the scripted engine, whose clock stands still. *)
Lemma fallback_ids_repeat_witness :
  exists id,
    outcome (_generateRequestId offline) = inr id
    /\ outcome (_generateRequestId (online [Scripted.reply 200 "OK" [task_envelope]]))
       = inr id
    /\ fetched (final (_makeHttpRequest "tasks/get" task_query "application/json" offline))
       = requested "http://agent.example" "application/json" "tasks/get" id task_query
    /\ fetched (final (_makeHttpRequest "tasks/cancel" task_query "application/json"
                         (online [Scripted.reply 200 "OK" [task_envelope]])))
       = requested "http://agent.example" "application/json" "tasks/cancel" id task_query.
Proof.
  exact (fallback_ids_repeat "tasks/get" "tasks/cancel" task_query task_query
           "application/json" "application/json" offline
           (online [Scripted.reply 200 "OK" [task_envelope]]) eq_refl eq_refl).
Defined.

(** X9 on a status 404. *)
Lemma unopened_stream_raises_plain_error_witness :
  outcome (_handleStreamingResponse (Scripted.reply 404 "Not Found" [working ++ "~~"])
             (Some "tasks/sendSubscribe") offline)
  = inl (Error "HTTP error 404: Not Found - Failed to establish stream.").
Proof.
  refine (proj1 (unopened_stream_raises_plain_error (Some "tasks/sendSubscribe")
                   (Scripted.reply 404 "Not Found" [working ++ "~~"]) offline _)).
  left. reflexivity.
Defined.

(** X10 on a connection that is reset inside the second frame. *)
Lemma read_failure_is_raised_after_the_items_witness :
  outcome (_handleStreamingResponse
             (broken 200 "OK" [working ++ "~~"; truncated] connection_reset)
             (Some "tasks/sendSubscribe") offline)
  = inl connection_reset
  /\ yields (events (_handleStreamingResponse
                       (broken 200 "OK" [working ++ "~~"; truncated] connection_reset)
                       (Some "tasks/sendSubscribe") offline))
     = [state_working].
Proof.
  destruct (read_failure_is_raised_after_the_items (Some "tasks/sendSubscribe")
              200 "OK" (map Json.wire [working ++ "~~"; truncated]) connection_reset
              offline eq_refl) as (Hend & Hitems & _).
  split; [exact Hend |].
  etransitivity; [exact Hitems |]. vm_compute. reflexivity.
Defined.

(** X11 on a stream whose second frame has no blank line after it. *)
Lemma unterminated_frame_is_dropped_witness :
  yields (events (_handleStreamingResponse
                    (Scripted.reply 200 "OK" [working ++ "~~" ++ completed])
                    (Some "tasks/sendSubscribe") offline))
  = [state_working]
  /\ outcome (_handleStreamingResponse
                (Scripted.reply 200 "OK" [working ++ "~~" ++ completed])
                (Some "tasks/sendSubscribe") offline)
     = inr tt.
Proof.
  destruct (unterminated_frame_is_dropped (Some "tasks/sendSubscribe")
              (response := Scripted.reply 200 "OK" [working ++ "~~" ++ completed])
              (parts := [Json.wire (working ++ "~~" ++ completed)])
              (frames := [Json.wire working]) (rest := Json.wire completed) offline)
    as [Hevents Hend].
  - split; reflexivity.
  - vm_compute. reflexivity.
  - repeat constructor.
  - vm_compute. reflexivity.
  - split; [| exact Hend]. rewrite Hevents. vm_compute. reflexivity.
Defined.

(** X12 on the stream with a [null] result. *)
Lemma items_come_frame_by_frame_witness :
  yields (events (_handleStreamingResponse stream_with_null
                    (Some "tasks/sendSubscribe") offline))
  = [state_working; VNull; state_completed].
Proof.
  etransitivity.
  - apply (items_come_frame_by_frame (Some "tasks/sendSubscribe")
             (response := stream_with_null)
             (parts := map Json.wire [working ++ "~~" ++ nothing ++ "~~"; completed ++ "~~"])
             (frames := [Json.wire working; Json.wire nothing; Json.wire completed])).
    + split; reflexivity.
    + vm_compute. reflexivity.
    + repeat constructor.
  - vm_compute. reflexivity.
Defined.

(** X13 on a frame closed by two Windows line ends. *)
Lemma carriage_returns_do_not_matter_witness :
  yields (events (_handleStreamingResponse working_crlf (Some "tasks/sendSubscribe") offline))
  = [state_working].
Proof.
  unfold working_crlf.
  rewrite (carriage_returns_do_not_matter (Some "tasks/sendSubscribe") 200 "OK"
             [Json.wire working ++ crlf_end] None offline eq_refl).
  vm_compute. reflexivity.
Defined.

(** X14 on a comment frame and a data prefix without payload. *)
Lemma frames_without_data_are_silent_witness :
  yields (events (_handleStreamingResponse
                    (Scripted.reply 200 "OK" [ping ++ "~~" ++ blank_data ++ "~~"])
                    (Some "tasks/sendSubscribe") offline))
  = []
  /\ outcome (_handleStreamingResponse
                (Scripted.reply 200 "OK" [ping ++ "~~" ++ blank_data ++ "~~"])
                (Some "tasks/sendSubscribe") offline)
     = inr tt.
Proof.
  rewrite (frames_without_data_are_silent (Some "tasks/sendSubscribe")
             (response := Scripted.reply 200 "OK" [ping ++ "~~" ++ blank_data ++ "~~"])
             (parts := [Json.wire (ping ++ "~~" ++ blank_data ++ "~~")])
             (frames := [Json.wire ping; Json.wire blank_data]) offline).
  - split; reflexivity.
  - split; reflexivity.
  - vm_compute. reflexivity.
  - repeat constructor.
  - constructor; [left; reflexivity | constructor; [right; reflexivity | constructor]].
Defined.


(** X16 on a client that is asked for a capability first. *)
Lemma supports_fills_the_cache_witness :
  shows agentCard
    (final (supports "streaming" (online [Scripted.reply 200 "OK" [card]])))
    [] card_value.
Proof.
  refine (proj1 (supports_fills_the_cache "streaming" "pushNotifications"
                   (online [Scripted.reply 200 "OK" [card]])
                   (card := card_value) _ eq_refl)).
  vm_compute. reflexivity.
Defined.

(** X17 on [getTask] without network. *)
Lemma unary_methods_raise_only_RpcError_witness :
  is_RpcError (RpcError INTERNAL_ERROR "Network error: fetch failed"
                 (Cause (Error "fetch failed")))
  = true.
Proof.
  refine (proj1 (proj1 (Forall_forall _ _) unary_methods_raise_only_RpcError
                   (getTask, "tasks/get") _ task_query offline) _ _).
  - right. left. reflexivity.
  - vm_compute. reflexivity.
Defined.

(** X19 on [sendTaskSubscribe] without network. *)
Lemma streaming_methods_on_the_wire_witness :
  outcome (sendTaskSubscribe task_query offline)
  = inl (RpcError INTERNAL_ERROR "Network error: fetch failed"
           (Cause (Error "fetch failed")))
  /\ yields (events (sendTaskSubscribe task_query offline)) = [].
Proof.
  refine (proj1 (proj2 (proj1 (Forall_forall _ _) streaming_methods_on_the_wire
                          (sendTaskSubscribe, "tasks/sendSubscribe") _
                          task_query offline)) _ _).
  - left. reflexivity.
  - vm_compute. reflexivity.
Defined.

(** X20 on a base URL with and without a final slash. *)
Lemma constructor_drops_one_final_slash_witness :
  new_HttpClient "http://agent.example/" = new_HttpClient "http://agent.example".
Proof.
  etransitivity.
  - exact (proj1 (constructor_drops_one_final_slash "http://agent.example")).
  - symmetry.
    exact (proj1 (proj2 (constructor_drops_one_final_slash "http://agent.exampl"))
             "e"%char eq_refl).
Defined.

(** X21 on options that switch CORS off and give no base path. *)
Lemma server_constructor_defaults_witness :
  A2AServer.constructor (TaskStore := unit) None = inl (Error "taskStore is required")
  /\ A2AServer.constructor
       (Some {| A2AServerOptions.taskStore := Some tt;
                A2AServerOptions.cors := VBool false;
                A2AServerOptions.basePath := VUndefined;
                A2AServerOptions.card := card_value |})
     = inr {| A2AServer.taskStore := tt;
              A2AServer.cors := VBool false;
              A2AServer.basePath := VStr "/";
              A2AServer.card := card_value |}.
Proof.
  split.
  - apply (proj1 (server_constructor_defaults (TaskStore := unit) None)). now left.
  - reflexivity.
Defined.

End MoreConcrete.
